(** * Branch report: the piece-aware wrapper, the branch classifier,
      the date formatter and the collection loops of [main.py]

    A shallow embedding of [src/main.py].  Python strings are sequences of
    Unicode code points and are embedded as lists of code points ([N]);
    Python integers are [Z]; a Python [set] is a [gset]; exceptions are an
    explicit sum type.  External collaborators (the [git] subprocess and
    [datetime.fromisoformat]) are parameters. *)

From Stdlib Require Import ZArith NArith List Lia Strings.String Strings.Ascii.
From Stdlib Require Import Sorting.Permutation Sorting.Sorted.
From stdpp Require Import base gmap strings.
From Equations Require Import Equations.
Import ListNotations.
Open Scope Z_scope.

(* ===================================================================== *)
(** ** Python strings *)
(* ===================================================================== *)

(** A [str] is a list of code points. *)
Abbreviation str := (list N).

(** String literals of the source, as code points. *)
Definition str_of (s : string) : str :=
  map N_of_ascii (list_ascii_of_string s).

(** [str.isspace] on one code point: the characters that [str.strip],
    [str.lstrip] and [str.rstrip] remove when called without argument. *)
Definition isspace (c : N) : bool :=
  ((9 <=? c) && (c <=? 13) || (28 <=? c) && (c <=? 32)
   || (c =? 133) || (c =? 160) || (c =? 5760)
   || (8192 <=? c) && (c <=? 8202)
   || (c =? 8232) || (c =? 8233) || (c =? 8239) || (c =? 8287)
   || (c =? 12288))%N.

(** [s.lstrip()] *)
Fixpoint lstrip (s : str) : str :=
  match s with
  | [] => []
  | c :: t => if isspace c then lstrip t else s
  end.

(** [s.rstrip()] *)
Fixpoint rstrip (s : str) : str :=
  match s with
  | [] => []
  | c :: t =>
      match rstrip t with
      | [] => if isspace c then [] else [c]
      | r => c :: r
      end
  end.

(** [s.strip()] *)
Definition strip (s : str) : str := lstrip (rstrip s).

(** Truth value of a string: [if s:] holds for the non-empty ones. *)
Definition truthy (s : str) : bool :=
  match s with
  | [] => false
  | _ :: _ => true
  end.

(** All characters of [s] are whitespace. *)
Definition blank (s : str) : Prop := Forall (fun c => isspace c = true) s.

(** [s.split(sep)] for a one-character separator: the fields between the
    occurrences of [sep]; always at least one field. *)
Fixpoint split_on (sep : N) (s : str) : list str :=
  match s with
  | [] => [[]]
  | c :: t =>
      if (c =? sep)%N then [] :: split_on sep t
      else match split_on sep t with
           | [] => [[c]]
           | f :: fs => (c :: f) :: fs
           end
  end.

(** [s.rstrip("\n")] *)
Fixpoint rstrip_newlines (s : str) : str :=
  match s with
  | [] => []
  | c :: t =>
      match rstrip_newlines t with
      | [] => if (c =? 10)%N then [] else [c]
      | r => c :: r
      end
  end.

(* ===================================================================== *)
(** ** Visible length: [strip_ansi_len] *)
(* ===================================================================== *)

(** The character class [[0-9;]] of the pattern. *)
Definition is_param (c : N) : bool :=
  ((48 <=? c) && (c <=? 57) || (c =? 59))%N.

(** The greedy [[0-9;]*]: what is left after the longest run. *)
Fixpoint skip_params (s : str) : str :=
  match s with
  | [] => []
  | c :: t => if is_param c then skip_params t else s
  end.

(** A match of [\x1b\[[0-9;]*m] at the start of [s]: the rest of [s] after
    the match.  The closing [m] is not in the class, so the longest run is
    the only one that can be followed by it. *)
Definition match_ansi (s : str) : option str :=
  match s with
  | 27%N :: 91%N :: t =>
      match skip_params t with
      | 109%N :: r => Some r
      | _ => None
      end
  | _ => None
  end.

Definition inspect {A} (a : A) : {b | a = b} := exist _ a eq_refl.

(** [ansi_re.sub("", s)]: scanning from the left, every match is dropped
    and the scan resumes behind it; a character that starts no match is
    kept. *)
Equations? ansi_sub (s : str) : str by wf (length s) lt :=
  ansi_sub [] := [];
  ansi_sub (c :: t) with inspect (match_ansi (c :: t)) := {
    | exist _ (Some r) H := ansi_sub r;
    | exist _ None _ := c :: ansi_sub t }.
Proof.
  assert (Hskip : forall u, (length (skip_params u) <= length u)%nat).
  { induction u as [|d u IH]; simpl; [lia|].
    destruct (is_param d); simpl; lia. }
  change (match_ansi (c :: t) = Some r) in H.
  unfold match_ansi in H.
  destruct c as [|p]; [discriminate|].
  repeat (destruct p as [p|p|]; try discriminate).
  destruct t as [|[|q] u]; try discriminate.
  repeat (destruct q as [q|q|]; try discriminate).
  specialize (Hskip u).
  destruct (skip_params u) as [|[|q] r']; try discriminate.
  repeat (destruct q as [q|q|]; try discriminate).
  inversion H; subst. simpl in *. lia.
Qed.

(** [strip_ansi_len(s)] *)
Definition strip_ansi_len (s : str) : Z := Z.of_nat (length (ansi_sub s)).

(** A string without the escape character holds no styling sequence. *)
Definition plain (s : str) : Prop := Forall (fun c => c <> 27%N) s.

(** The visible length is additive behind [t]: [t] does not end inside an
    unfinished styling sequence. *)
Definition additive (t : str) : Prop :=
  forall y, strip_ansi_len (t ++ y) = strip_ansi_len t + strip_ansi_len y.

(* ===================================================================== *)
(** ** The piece-aware wrapper: [wrap_pieces] *)
(* ===================================================================== *)

(** The two variables of the loop. *)
Record wrap_state := WrapState { lines : list str; cur : str }.

(** One iteration of [for piece in pieces]. *)
Definition wrap_step (width : Z) (first_prefix next_prefix : str)
    (st : wrap_state) (piece : str) : wrap_state :=
  if negb (truthy piece) then st
  else
    let proposed := cur st ++ piece in
    if (strip_ansi_len proposed <=? width)
       || (strip_ansi_len (cur st) <=? strip_ansi_len first_prefix)
    then WrapState (lines st) proposed
    else
      let lines1 := lines st ++ [rstrip (cur st)] in
      let cur1 := next_prefix ++ lstrip piece in
      if strip_ansi_len cur1 >? width
      then WrapState (lines1 ++ [rstrip cur1]) next_prefix
      else WrapState lines1 cur1.

(** The state after the loop. *)
Definition wrap_loop (width : Z) (first_prefix next_prefix : str)
    (pieces : list str) (st : wrap_state) : wrap_state :=
  fold_left (wrap_step width first_prefix next_prefix) pieces st.

(** [wrap_pieces(pieces, width=..., first_prefix=..., next_prefix=...)] *)
Definition wrap_pieces (pieces : list str) (width : Z)
    (first_prefix next_prefix : str) : list str :=
  let st := wrap_loop width first_prefix next_prefix pieces
              (WrapState [] first_prefix) in
  if truthy (strip (cur st)) then lines st ++ [rstrip (cur st)]
  else lines st.

(** *** The loop annotated with the tokens of each accumulator

    A proof instrument: the same loop, where every accumulator also
    records the prefix it was seeded with, the tokens appended to it, and
    whether its first token was left-trimmed when it opened the line. *)
Record group := Group { g_prefix : str; g_trim : bool; g_toks : list str }.

(** The text a group's tokens contribute to its accumulator. *)
Definition group_body (g : group) : str :=
  if g_trim g then
    match g_toks g with
    | [] => []
    | t :: r => lstrip t ++ concat r
    end
  else concat (g_toks g).

(** The accumulator of a group, and the line it is closed as. *)
Definition group_acc (g : group) : str := g_prefix g ++ group_body g.
Definition group_line (g : group) : str := rstrip (group_acc g).

(** The closed groups and the open one. *)
Record trace := Trace { closed : list group; open : group }.

Definition trace_state (tr : trace) : wrap_state :=
  WrapState (map group_line (closed tr)) (group_acc (open tr)).

Definition trace_step (width : Z) (first_prefix next_prefix : str)
    (tr : trace) (piece : str) : trace :=
  if negb (truthy piece) then tr
  else
    let g := open tr in
    if (strip_ansi_len (group_acc g ++ piece) <=? width)
       || (strip_ansi_len (group_acc g) <=? strip_ansi_len first_prefix)
    then Trace (closed tr) (Group (g_prefix g) (g_trim g) (g_toks g ++ [piece]))
    else
      let g1 := Group next_prefix true [piece] in
      if strip_ansi_len (group_acc g1) >? width
      then Trace (closed tr ++ [g; g1]) (Group next_prefix false [])
      else Trace (closed tr ++ [g]) g1.

Definition trace_loop (width : Z) (first_prefix next_prefix : str)
    (pieces : list str) (tr : trace) : trace :=
  fold_left (trace_step width first_prefix next_prefix) pieces tr.

(** All groups of a trace, in order. *)
Definition groups (tr : trace) : list group := closed tr ++ [open tr].

(** The annotated run of [wrap_pieces]. *)
Definition wrap_trace (pieces : list str) (width : Z)
    (first_prefix next_prefix : str) : trace :=
  trace_loop width first_prefix next_prefix pieces
    (Trace [] (Group first_prefix false [])).

(** A left-trimmed group has the token that was trimmed. *)
Definition wf_group (g : group) : Prop := g_trim g = true -> g_toks g <> [].

(** The accumulators whose line may be wider than the width: a bare
    prefix, the continuation prefix with one left-trimmed token, and an
    accumulator not wider than the first prefix with one more token. *)
Definition unsplit_acc (first_prefix next_prefix : str) (pieces : list str)
    (c : str) : Prop :=
  c = first_prefix
  \/ c = next_prefix
  \/ (exists t, In t pieces /\ c = next_prefix ++ lstrip t)
  \/ (exists acc t, In t pieces
        /\ strip_ansi_len acc <= strip_ansi_len first_prefix
        /\ c = acc ++ t).




(* ===================================================================== *)
(** ** The branch classifier: [local_branches_not_on_any_remote] *)
(* ===================================================================== *)

(** ["/" in r] *)
Definition has_slash (r : str) : bool := existsb (N.eqb 47) r.

(** [r.split("/", 1)[1]]: what follows the first ["/"]. *)
Fixpoint after_first_slash (r : str) : option str :=
  match r with
  | [] => None
  | c :: t => if (c =? 47)%N then Some t else after_first_slash t
  end.

(** The set comprehension
    [{r.split("/", 1)[1] for r in remote_shorts if "/" in r}]. *)
Fixpoint remote_leaf_names (remote_shorts : list str) : gset str :=
  match remote_shorts with
  | [] => ∅
  | r :: rs =>
      if has_slash r then
        match after_first_slash r with
        | Some leaf => {[ leaf ]} ∪ remote_leaf_names rs
        | None => remote_leaf_names rs
        end
      else remote_leaf_names rs
  end.

(** [[l for l in local_shorts if l not in remote_leaf_names]] *)
Definition local_branches_not_on_any_remote
    (local_shorts remote_shorts : list str) : list str :=
  List.filter
    (fun l => negb (bool_decide (l ∈ remote_leaf_names remote_shorts)))
    local_shorts.

(* ===================================================================== *)
(** ** The date formatter: [format_date] *)
(* ===================================================================== *)

(** [datetime.timedelta], as Python normalises it. *)
Record timedelta := Timedelta
  { td_days : Z; td_seconds : Z; td_microseconds : Z }.

(** [datetime.datetime]; [utcoffset] is [None] for a naive instant. *)
Record datetime := Datetime
  { year : Z; month : Z; day : Z;
    hour : Z; minute : Z; second : Z; microsecond : Z;
    utcoffset : option timedelta }.

(** The offset in microseconds: [total_seconds()] times [10**6]. *)
Definition total_microseconds (d : timedelta) : Z :=
  (td_days d * 86400 + td_seconds d) * 1000000 + td_microseconds d.

(** Decimal digits of a number. *)
Fixpoint uint_codes (d : Decimal.uint) : str :=
  match d with
  | Decimal.Nil => []
  | Decimal.D0 d => 48%N :: uint_codes d
  | Decimal.D1 d => 49%N :: uint_codes d
  | Decimal.D2 d => 50%N :: uint_codes d
  | Decimal.D3 d => 51%N :: uint_codes d
  | Decimal.D4 d => 52%N :: uint_codes d
  | Decimal.D5 d => 53%N :: uint_codes d
  | Decimal.D6 d => 54%N :: uint_codes d
  | Decimal.D7 d => 55%N :: uint_codes d
  | Decimal.D8 d => 56%N :: uint_codes d
  | Decimal.D9 d => 57%N :: uint_codes d
  end.

Definition digits (n : Z) : str := uint_codes (N.to_uint (Z.to_N n)).

(** [f"{n}"] for an integer. *)
Definition format_int (n : Z) : str :=
  if n <? 0 then 45%N :: digits (- n) else digits n.

(** [f"{n:+d}"]: the sign is always written. *)
Definition format_int_signed (n : Z) : str :=
  if n <? 0 then 45%N :: digits (- n) else 43%N :: digits n.

(** Two digits with a leading zero, as [%I], [%M] and [%S] print. *)
Definition pad2 (n : Z) : str :=
  if n <? 10 then 48%N :: digits n else digits n.

(** [dt.strftime('%b')] in the C locale. *)
Definition month_abbr (m : Z) : str :=
  nth (Z.to_nat (m - 1))
    (map str_of ["Jan"; "Feb"; "Mar"; "Apr"; "May"; "Jun";
                 "Jul"; "Aug"; "Sep"; "Oct"; "Nov"; "Dec"]%string) [].

(** [s.capitalize()] on the letters of the month names. *)
Definition upper (c : N) : N :=
  if ((97 <=? c) && (c <=? 122))%N then (c - 32)%N else c.
Definition lower (c : N) : N :=
  if ((65 <=? c) && (c <=? 90))%N then (c + 32)%N else c.
Definition capitalize (s : str) : str :=
  match s with
  | [] => []
  | c :: t => upper c :: map lower t
  end.

(** [dt.strftime('%I:%M:%S %p')] in the C locale. *)
Definition hour12 (h : Z) : Z :=
  if h mod 12 =? 0 then 12 else h mod 12.
Definition strftime_IMSp (dt : datetime) : str :=
  pad2 (hour12 (hour dt)) ++ str_of ":" ++ pad2 (minute dt) ++ str_of ":"
  ++ pad2 (second dt) ++ str_of " "
  ++ (if hour dt <? 12 then str_of "AM" else str_of "PM").

(** ['th' if 11 <= day <= 13 else {1: 'st', 2: 'nd', 3: 'rd'}.get(day % 10, 'th')] *)
Definition ordinal (d : Z) : str :=
  if (11 <=? d) && (d <=? 13) then str_of "th"
  else
    let r := d mod 10 in
    if r =? 1 then str_of "st"
    else if r =? 2 then str_of "nd"
    else if r =? 3 then str_of "rd"
    else str_of "th".

(** [int(offset.total_seconds() / 3600)].  The float quotient of an offset
    of less than a day is within [1e-14] of the exact one, which is an
    integer or at least [1 / 3.6e9] away from one, so that the truncation
    of the float is the truncation of the exact quotient. *)
Definition offset_hours (off : timedelta) : Z :=
  Z.quot (total_microseconds off) 3600000000.

Definition tz_str (dt : datetime) : str :=
  match utcoffset dt with
  | Some off => str_of "GMT" ++ format_int_signed (offset_hours off)
  | None => str_of "GMT"
  end.

(** [format_date(dt)] *)
Definition format_date (dt : datetime) : str :=
  let month_s := capitalize (month_abbr (month dt)) ++ str_of "." in
  let day_str := format_int (day dt) ++ ordinal (day dt) in
  month_s ++ str_of " " ++ day_str ++ str_of ", " ++ format_int (year dt)
  ++ str_of ", " ++ strftime_IMSp dt ++ str_of ", " ++ tz_str dt.

(** *** The readable format in the words of the specification *)

(** Days 11 to 13 take [th]; otherwise the last digit decides. *)
Definition ordinal_suffix_spec (d : Z) : str :=
  if (11 <=? d) && (d <=? 13) then str_of "th"
  else match d mod 10 with
       | 1 => str_of "st"
       | 2 => str_of "nd"
       | 3 => str_of "rd"
       | _ => str_of "th"
       end.

(** The quotient truncated toward zero: the sign, and the whole part of
    the quotient of the absolute value. *)
Definition truncate_toward_zero (a b : Z) : Z := Z.sgn a * (Z.abs a / b).

(** [GMT], then the sign and the whole hours of the offset; bare [GMT]
    without an offset. *)
Definition timezone_spec (dt : datetime) : str :=
  match utcoffset dt with
  | None => str_of "GMT"
  | Some off =>
      let h := truncate_toward_zero (total_microseconds off) 3600000000 in
      str_of "GMT" ++ (if h <? 0 then str_of "-" else str_of "+")
      ++ digits (Z.abs h)
  end.

(* ===================================================================== *)
(** ** Branch records, the query of a tip commit and the lists of [main] *)
(* ===================================================================== *)

Record BranchInfo := MkBranchInfo
  { kind : str; display_name : str; refname : str;
    commit_hash : str; committer : str;
    commit_date : datetime; subject : str }.

(** The exceptions that reach [main]: [run_git] raises [RuntimeError] on a
    non-zero exit, [get_latest_commit] raises it on an unexpected number of
    fields, and [datetime.fromisoformat] raises [ValueError]. *)
Inductive exn :=
| RuntimeError (msg : str)
| ValueError.

(** A result or a raised exception, with the usual sequencing. *)
Definition result (A : Type) : Type := exn + A.

#[global] Instance result_bind : MBind result :=
  fun A B (k : A -> result B) (r : result A) =>
    match r with
    | inl e => inl e
    | inr a => k a
    end.

(** [xs[i]] on a list known to be long enough. *)
Definition field (i : nat) (parts : list str) : str := nth i parts [].

Section Adapter.
(** [run_git(repo_dir, ["log", "-1", "--format=...", "--date=iso-strict",
    refname])]: the standard output of the command, or the exception. *)
Variable run_git_log : str -> result str.
(** [datetime.fromisoformat], [None] standing for its [ValueError]. *)
Variable fromisoformat : str -> option datetime.

(** [get_latest_commit(repo_dir, refname)]; the message of the exception
    is left without the [repr] of the output. *)
Definition get_latest_commit (ref : str)
  : result (str * str * datetime * str) :=
  out ← run_git_log ref;
  let stdout := rstrip_newlines out in
  let parts := split_on 0 stdout in
  if negb (length parts =? 4)%nat then
    inl (RuntimeError (str_of "Unexpected log format for " ++ ref))
  else
    match fromisoformat (field 2 parts) with
    | None => inl ValueError
    | Some date_obj =>
        inr (field 0 parts, field 1 parts, date_obj, field 3 parts)
    end.

(** [build_branch_info(repo_dir, kind, refname, display)] *)
Definition build_branch_info (k ref display : str) : result BranchInfo :=
  '(h, c, d, s) ← get_latest_commit ref;
  inr (MkBranchInfo k display ref h c d s).

(** The loop
    [for full_ref, short in refs: try: infos.append(build_branch_info(...))
     except RuntimeError: continue]: a [RuntimeError] skips the ref, any
    other exception leaves the loop and [main]. *)
Fixpoint collect_infos (k : str) (refs : list (str * str))
    (infos : list BranchInfo) : result (list BranchInfo) :=
  match refs with
  | [] => inr infos
  | (full_ref, short) :: rest =>
      match build_branch_info k full_ref short with
      | inr b => collect_infos k rest (infos ++ [b])
      | inl (RuntimeError _) => collect_infos k rest infos
      | inl e => inl e
      end
  end.

(** The records of the refs whose query succeeds, in the order of the
    enumeration. *)
Fixpoint successful_infos (k : str) (refs : list (str * str))
    : list BranchInfo :=
  match refs with
  | [] => []
  | (full_ref, short) :: rest =>
      match build_branch_info k full_ref short with
      | inr b => b :: successful_infos k rest
      | inl _ => successful_infos k rest
      end
  end.

(** The query of a ref succeeds, or fails with the exception that the
    loop catches. *)
Definition caught (r : str * str) : Prop :=
  forall e, get_latest_commit (fst r) = inl e -> exists msg, e = RuntimeError msg.
End Adapter.

(** *** Comparison of instants and [list.sort(key=..., reverse=True)] *)

Definition is_leap (y : Z) : bool :=
  (y mod 4 =? 0) && (negb (y mod 100 =? 0) || (y mod 400 =? 0)).

Definition days_before_year (y : Z) : Z :=
  let y1 := y - 1 in y1 * 365 + y1 / 4 - y1 / 100 + y1 / 400.

Definition days_before_month (y m : Z) : Z :=
  nth (Z.to_nat (m - 1)) [0; 31; 59; 90; 120; 151; 181; 212; 243; 273; 304; 334] 0
  + (if (2 <? m) && is_leap y then 1 else 0).

(** [dt.toordinal()] *)
Definition toordinal (dt : datetime) : Z :=
  days_before_year (year dt) + days_before_month (year dt) (month dt) + day dt.

(** The instant of [dt] on the UTC time line, in microseconds; this is
    what the comparison of two aware datetimes compares.  (Python raises
    [TypeError] on a naive and an aware one; a naive one counts as UTC
    here.) *)
Definition utc_microseconds (dt : datetime) : Z :=
  ((toordinal dt * 86400 + hour dt * 3600 + minute dt * 60 + second dt)
   * 1000000 + microsecond dt)
  - match utcoffset dt with
    | Some off => total_microseconds off
    | None => 0
    end.

(** [a < b] on datetimes. *)
Definition datetime_lt (a b : datetime) : bool :=
  utc_microseconds a <? utc_microseconds b.

Section Sort.
Context {A K : Type}.
Variable key : A -> K.
Variable lt : K -> K -> bool.

(** [x] enters a descending list behind the elements whose key is
    greater and before the first one whose key is not. *)
Fixpoint insert_desc (x : A) (l : list A) : list A :=
  match l with
  | [] => [x]
  | y :: r => if lt (key x) (key y) then y :: insert_desc x r
              else x :: y :: r
  end.

(** [l.sort(key=key, reverse=True)]: Python's sort is stable, and with
    [reverse=True] elements with equal keys keep their original order;
    the result of such a sort does not depend on the algorithm, and is
    computed here by insertion, with the comparison [<] of the keys
    only. *)
Definition sort_reverse (l : list A) : list A :=
  fold_right insert_desc [] l.
End Sort.

(** [infos.sort(key=lambda b: b.commit_date, reverse=True)] *)
Definition sort_infos (infos : list BranchInfo) : list BranchInfo :=
  sort_reverse commit_date datetime_lt infos.

(** The body of [main] from the enumerated refs to the two lists that it
    renders, [remote_infos] and [local_only_infos], collected and sorted;
    an exception that no handler catches ends [main]. *)
Definition main_infos (run_git_log : str -> result str)
    (fromisoformat : str -> option datetime)
    (remote_refs local_refs : list (str * str))
    : result (list BranchInfo * list BranchInfo) :=
  remote_infos ←
    collect_infos run_git_log fromisoformat (str_of "remote") remote_refs [];
  let remote_shorts := map snd remote_refs in
  let local_only_short_names :=
    local_branches_not_on_any_remote (map snd local_refs) remote_shorts in
  let local_only_refs :=
    List.filter
      (fun r => bool_decide (snd r ∈ (list_to_set local_only_short_names : gset str)))
      local_refs in
  local_only_infos ←
    collect_infos run_git_log fromisoformat (str_of "local") local_only_refs [];
  inr (sort_infos remote_infos, sort_infos local_only_infos).

(** *** A repository for the examples

    [origin/gone] cannot be queried, [origin/main] has a tip commit whose
    date parses, and the date of the tip commit of [origin/dev] is printed
    with the suffix [Z] that the parser of this example rejects. *)
Definition demo_date : datetime :=
  Datetime 2024 1 1 13 5 9 0 (Some (Timedelta 0 0 0)).

Definition demo_dev_output : str :=
  str_of "89ef4567" ++ [0%N] ++ str_of "Bob" ++ [0%N]
  ++ str_of "2024-01-01T13:05:09Z" ++ [0%N] ++ str_of "wip" ++ [10%N].

Definition demo_log (ref : str) : result str :=
  if bool_decide (ref = str_of "refs/remotes/origin/main")
  then inr (str_of "0123abcd" ++ [0%N] ++ str_of "Ann" ++ [0%N]
            ++ str_of "2024-01-01T13:05:09+00:00" ++ [0%N]
            ++ str_of "init" ++ [10%N])
  else if bool_decide (ref = str_of "refs/remotes/origin/dev")
  then inr demo_dev_output
  else inl (RuntimeError (str_of "Git command failed")).

Definition demo_fromisoformat (s : str) : option datetime :=
  if bool_decide (s = str_of "2024-01-01T13:05:09+00:00")
  then Some demo_date else None.

Definition demo_remote_refs : list (str * str) :=
  [(str_of "refs/remotes/origin/gone", str_of "origin/gone");
   (str_of "refs/remotes/origin/main", str_of "origin/main");
   (str_of "refs/remotes/origin/dev", str_of "origin/dev")].

(* ===================================================================== *)
(** ** The enumeration of the branches *)
(* ===================================================================== *)

(** The line boundaries of [str.splitlines]. *)
Definition is_linebreak (c : N) : bool :=
  ((10 <=? c) && (c <=? 13) || (28 <=? c) && (c <=? 30)
   || (c =? 133) || (c =? 8232) || (c =? 8233))%N.

(** [s.splitlines()]: the lines of [s] without their boundaries; a
    carriage return followed by a line feed is one boundary, and a
    boundary at the very end opens no further line. *)
Fixpoint splitlines (s : str) : list str :=
  match s with
  | [] => []
  | c :: t =>
      if is_linebreak c then
        [] :: match t with
              | d :: t' =>
                  if ((c =? 13) && (d =? 10))%N then splitlines t'
                  else splitlines t
              | [] => []
              end
      else
        match splitlines t with
        | [] => [[c]]
        | l :: ls => (c :: l) :: ls
        end
  end.

(** [s.endswith(suffix)] *)
Definition endswith (s suffix : str) : bool :=
  bool_decide (skipn (length s - length suffix) s = suffix).

(** [[line.strip() for line in stdout.splitlines() if line.strip()]] *)
Definition stripped_lines (stdout : str) : list str :=
  map strip (List.filter (fun line => truthy (strip line)) (splitlines stdout)).

(** [list_remote_branches(repo_dir)], from the standard output of
    [git for-each-ref --format=%(refname:short) refs/remotes]. *)
Definition list_remote_branches (stdout : str) : list (str * str) :=
  let shorts := stripped_lines stdout in
  let shorts := List.filter (fun s => negb (endswith s (str_of "/HEAD"))) shorts in
  map (fun s => (str_of "refs/remotes/" ++ s, s)) shorts.

(** [list_local_branches(repo_dir)], from the standard output of
    [git for-each-ref --format=%(refname:short) refs/heads]. *)
Definition list_local_branches (stdout : str) : list (str * str) :=
  let shorts := stripped_lines stdout in
  map (fun s => (str_of "refs/heads/" ++ s, s)) shorts.

(** A name as git prints it: not empty and without whitespace. *)
Definition clean_name (n : str) : Prop :=
  n <> [] /\ Forall (fun c => isspace c = false) n.

(* ===================================================================== *)
(** ** The report of [main] *)
(* ===================================================================== *)

Section Report.
(** [termcolor.colored(text, color, attrs=attrs)], no attributes when they
    are not given. *)
Variable colored : str -> str -> list str -> str.
(** [datetime.isoformat] *)
Variable isoformat : datetime -> str.
(** [args.timestamp_format] and the width of the terminal. *)
Variable timestamp_format : str.
Variable width : Z.

(** ["-" * n] *)
Definition dashes (n : Z) : str := repeat 45%N (Z.to_nat n).

(** The three prints of the header, for [title]. *)
Definition header_lines (repo_name : str) : list str :=
  let title := str_of "Latest commits per branch in " ++ repo_name in
  [colored title (str_of "cyan") [str_of "bold"];
   colored (dashes (Z.min width (Z.max 10 (Z.of_nat (length title)))))
     (str_of "cyan") [];
   []].

(** The pieces of one record. *)
Definition record_pieces (b : BranchInfo) : list str :=
  let branch := colored (display_name b) (str_of "green") [str_of "bold"] in
  let chash := colored (firstn 12 (commit_hash b)) (str_of "yellow") [] in
  let cdate :=
    if bool_decide (timestamp_format = str_of "iso")
    then colored (isoformat (commit_date b)) (str_of "magenta") []
    else colored (format_date (commit_date b)) (str_of "magenta") [] in
  let comm := colored (committer b) (str_of "blue") [] in
  let msg := colored (subject b) (str_of "white") [] in
  [branch; str_of "  "; chash; str_of "  "; cdate; str_of "  "; comm;
   str_of "  "; msg].

(** The lines printed for one record. *)
Definition record_lines (b : BranchInfo) : list str :=
  wrap_pieces (record_pieces b) width (str_of "  ") (str_of "    ").

(** [print_section(label, infos)]: the lines it prints. *)
Definition print_section (label : str) (infos : list BranchInfo) : list str :=
  colored label (str_of "cyan") [str_of "bold"]
  :: match infos with
     | [] => [colored (str_of "  (none)") (str_of "yellow") []; []]
     | _ :: _ => concat (map record_lines infos) ++ [[]]
     end.

(** What [main] prints on the standard output once the lists are made. *)
Definition report_lines (repo_name : str)
    (remote_infos local_only_infos : list BranchInfo) : list str :=
  header_lines repo_name
  ++ print_section (str_of "Remote branches") remote_infos
  ++ print_section (str_of "Local branches (no corresponding remote)")
       local_only_infos.

(** [main] from the two enumerations on: the printed lines, or the
    exception that ends it. *)
Definition main_report (run_git_log : str -> result str)
    (fromisoformat : str -> option datetime) (repo_name : str)
    (remote_stdout local_stdout : str) : result (list str) :=
  '(remote_infos, local_only_infos) ←
    main_infos run_git_log fromisoformat
      (list_remote_branches remote_stdout) (list_local_branches local_stdout);
  inr (report_lines repo_name remote_infos local_only_infos).
End Report.

(** *** A terminal for the examples

    [termcolor.colored] on a terminal that takes colours: the code of
    every attribute and the code of the colour in front of the text, the
    reset behind it.  The only attribute of the source is [bold]. *)
Definition sgr (code : str) : str := 27%N :: 91%N :: code ++ [109%N].

Definition demo_color_code (color : str) : str :=
  if bool_decide (color = str_of "green") then str_of "32"
  else if bool_decide (color = str_of "yellow") then str_of "33"
  else if bool_decide (color = str_of "blue") then str_of "34"
  else if bool_decide (color = str_of "magenta") then str_of "35"
  else if bool_decide (color = str_of "cyan") then str_of "36"
  else str_of "97".

Definition demo_colored (text color : str) (attrs : list str) : str :=
  concat (map (fun _ => sgr (str_of "1")) attrs)
  ++ sgr (demo_color_code color) ++ text ++ sgr (str_of "0").

Definition demo_isoformat (dt : datetime) : str :=
  str_of "2024-01-01T13:05:09+00:00".

Definition demo_info : BranchInfo :=
  MkBranchInfo (str_of "remote") (str_of "origin/main")
    (str_of "refs/remotes/origin/main") (str_of "0123abcd") (str_of "Ann")
    demo_date (str_of "init").

(* ===================================================================== *)
(** * Properties *)
(* ===================================================================== *)

(** ** Whitespace and trimming *)

Lemma rstrip_split (s : str) : exists ws, s = rstrip s ++ ws /\ blank ws.
Proof.
  induction s as [|c t (ws & Ht & Hws)]; simpl.
  - exists []. split; [reflexivity | constructor].
  - destruct (rstrip t) as [|d r] eqn:E.
    + simpl in Ht. subst t. destruct (isspace c) eqn:Hc.
      * exists (c :: ws). split; [reflexivity | constructor; assumption].
      * exists ws. split; [reflexivity | assumption].
    + exists ws. split; [|assumption]. simpl. f_equal. exact Ht.
Qed.

Lemma lstrip_split (s : str) : exists ws, s = ws ++ lstrip s /\ blank ws.
Proof.
  induction s as [|c t (ws & Ht & Hws)]; simpl.
  - exists []. split; [reflexivity | constructor].
  - destruct (isspace c) eqn:Hc.
    + exists (c :: ws). split; [simpl; f_equal; exact Ht | constructor; assumption].
    + exists []. split; [reflexivity | constructor].
Qed.

Lemma rstrip_blank (ws : str) : blank ws -> rstrip ws = [].
Proof.
  induction 1 as [|c t Hc _ IH]; simpl; [reflexivity|].
  rewrite IH, Hc. reflexivity.
Qed.

Lemma lstrip_blank (ws : str) : blank ws -> lstrip ws = [].
Proof.
  induction 1 as [|c t Hc _ IH]; simpl; [reflexivity|].
  rewrite Hc. exact IH.
Qed.

Lemma rstrip_nil_blank (s : str) : rstrip s = [] -> blank s.
Proof.
  intros H. destruct (rstrip_split s) as (ws & Hs & Hws).
  rewrite H in Hs. simpl in Hs. subst. assumption.
Qed.

Lemma lstrip_nil_blank (s : str) : lstrip s = [] -> blank s.
Proof.
  intros H. destruct (lstrip_split s) as (ws & Hs & Hws).
  rewrite H, app_nil_r in Hs. subst. assumption.
Qed.

(** Trimming on the right leaves a prefix alone once something after it
    survives. *)
Lemma rstrip_app (a b : str) :
  rstrip b <> [] -> rstrip (a ++ b) = a ++ rstrip b.
Proof.
  intros Hb. induction a as [|c a IH]; simpl; [reflexivity|].
  rewrite IH. destruct (a ++ rstrip b) eqn:E; [|reflexivity].
  apply app_eq_nil in E. tauto.
Qed.

Lemma rstrip_app_blank (a ws : str) : blank ws -> rstrip (a ++ ws) = rstrip a.
Proof.
  intros Hws. induction a as [|c a IH]; simpl.
  - apply rstrip_blank. assumption.
  - rewrite IH. reflexivity.
Qed.

Lemma lstrip_app_blank (ws a : str) : blank ws -> lstrip (ws ++ a) = lstrip a.
Proof.
  induction 1 as [|c t Hc _ IH]; simpl; [reflexivity|].
  rewrite Hc. exact IH.
Qed.

Lemma rstrip_idem (s : str) : rstrip (rstrip s) = rstrip s.
Proof.
  destruct (rstrip_split s) as (ws & Hs & Hws).
  rewrite Hs at 2. rewrite rstrip_app_blank by assumption. reflexivity.
Qed.

(** The two trims commute: [strip] may trim in either order. *)
Lemma rstrip_lstrip (s : str) : rstrip (lstrip s) = lstrip (rstrip s).
Proof.
  induction s as [|c t IH]; simpl; [reflexivity|].
  destruct (isspace c) eqn:Hc.
  - rewrite IH. destruct (rstrip t) eqn:E; simpl; rewrite ?Hc; reflexivity.
  - simpl. destruct (rstrip t) eqn:E; simpl; rewrite Hc; reflexivity.
Qed.

(** A string has a visible remainder after [strip] exactly when it is not
    blank. *)
Lemma strip_truthy_iff (s : str) : truthy (strip s) = true <-> ~ blank s.
Proof.
  unfold strip. split.
  - intros H Hb. rewrite (rstrip_blank s Hb) in H. discriminate.
  - intros H. destruct (lstrip (rstrip s)) eqn:E; [|reflexivity].
    exfalso. apply H. apply lstrip_nil_blank in E.
    destruct (rstrip_split s) as (ws & Hs & Hws). rewrite Hs.
    apply Forall_app. split; assumption.
Qed.

Lemma blank_app (a b : str) : blank (a ++ b) <-> blank a /\ blank b.
Proof. apply Forall_app. Qed.

Lemma rstrip_not_blank (s : str) : ~ blank s -> rstrip s <> [].
Proof. intros H E. apply H. apply rstrip_nil_blank. exact E. Qed.

(** ** The visible length *)

Lemma ansi_sub_cons (c : N) (t : str) :
  ansi_sub (c :: t) =
  match match_ansi (c :: t) with
  | Some r => ansi_sub r
  | None => c :: ansi_sub t
  end.
Proof.
  rewrite ansi_sub_equation_2.
  destruct (inspect (match_ansi (c :: t))) as [[r|] H];
    cbn [ansi_sub_unfold_clause_2]; rewrite H; reflexivity.
Qed.

Lemma skip_params_length (s : str) : (length (skip_params s) <= length s)%nat.
Proof.
  induction s as [|c t IH]; simpl; [lia|].
  destruct (is_param c); simpl; lia.
Qed.

(** A match consumes at least the three characters [ESC [ m]. *)
Lemma match_ansi_shorter (s r : str) :
  match_ansi s = Some r -> (length r + 3 <= length s)%nat.
Proof.
  unfold match_ansi. intros H.
  destruct s as [|[|p] s]; try discriminate.
  repeat (destruct p as [p|p|]; try discriminate).
  destruct s as [|[|q] u]; try discriminate.
  repeat (destruct q as [q|q|]; try discriminate).
  pose proof (skip_params_length u) as Hu.
  destruct (skip_params u) as [|[|q] r']; try discriminate.
  repeat (destruct q as [q|q|]; try discriminate).
  inversion H; subst. simpl in *. lia.
Qed.

Lemma match_ansi_not_esc (c : N) (t : str) : c <> 27%N -> match_ansi (c :: t) = None.
Proof.
  intros Hc. unfold match_ansi.
  destruct c as [|p]; [reflexivity|].
  repeat (destruct p as [p|p|]; try reflexivity). congruence.
Qed.

(** A string without the escape character has nothing to remove. *)
Lemma ansi_sub_plain (s : str) : plain s -> ansi_sub s = s.
Proof.
  induction 1 as [|c t Hc _ IH]; [reflexivity|].
  rewrite ansi_sub_cons, match_ansi_not_esc by assumption.
  rewrite IH. reflexivity.
Qed.

Lemma strip_ansi_len_plain (s : str) :
  plain s -> strip_ansi_len s = Z.of_nat (length s).
Proof. intros H. unfold strip_ansi_len. rewrite ansi_sub_plain by assumption. reflexivity. Qed.

(** Whitespace takes no part in a styling sequence. *)
Lemma isspace_inert (c : N) :
  isspace c = true ->
  c <> 27%N /\ c <> 91%N /\ c <> 109%N /\ is_param c = false.
Proof.
  unfold isspace, is_param. intros H.
  repeat rewrite ?orb_true_iff, ?andb_true_iff in H.
  repeat rewrite ?N.leb_le, ?N.eqb_eq in H.
  repeat split; try lia.
  apply orb_false_iff. split.
  - apply andb_false_iff. rewrite !N.leb_gt. lia.
  - apply N.eqb_neq. lia.
Qed.

Lemma blank_plain (ws : str) : blank ws -> plain ws.
Proof.
  induction 1 as [|c t Hc _ IH]; constructor; [|assumption].
  apply isspace_inert in Hc. tauto.
Qed.

Lemma skip_params_app_blank (t ws : str) :
  blank ws -> skip_params (t ++ ws) = skip_params t ++ ws.
Proof.
  intros Hws. induction t as [|c t IH]; simpl.
  - destruct Hws as [|d ws Hd _]; [reflexivity|]. simpl.
    apply isspace_inert in Hd. destruct Hd as (_ & _ & _ & ->). reflexivity.
  - destruct (is_param c); [exact IH | reflexivity].
Qed.

Lemma match_ansi_app_blank (c : N) (t ws : str) :
  blank ws ->
  match_ansi ((c :: t) ++ ws) = option_map (fun r => r ++ ws) (match_ansi (c :: t)).
Proof.
  intros Hws.
  destruct (N.eq_dec c 27%N) as [->|Hc];
    [|change ((c :: t) ++ ws) with (c :: (t ++ ws));
      rewrite !match_ansi_not_esc by assumption; reflexivity].
  destruct t as [|b u].
  - simpl. destruct Hws as [|d ws Hd _]; [reflexivity|].
    apply isspace_inert in Hd. destruct Hd as (_ & Hd & _).
    destruct d as [|p]; [reflexivity|].
    repeat (destruct p as [p|p|]; try reflexivity). congruence.
  - destruct (N.eq_dec b 91%N) as [->|Hb].
    + change (match_ansi ((27%N :: 91%N :: u) ++ ws))
        with (match skip_params (u ++ ws) with
              | 109%N :: r => Some r
              | _ => None
              end).
      change (match_ansi (27%N :: 91%N :: u))
        with (match skip_params u with
              | 109%N :: r => Some r
              | _ => None
              end).
      rewrite skip_params_app_blank by assumption.
      destruct (skip_params u) as [|m r]; simpl.
      * destruct Hws as [|d ws Hd _]; [reflexivity|].
        apply isspace_inert in Hd. destruct Hd as (_ & _ & Hd & _).
        destruct d as [|p]; [reflexivity|].
        repeat (destruct p as [p|p|]; try reflexivity). congruence.
      * destruct m as [|p]; [reflexivity|].
        repeat (destruct p as [p|p|]; try reflexivity).
    + simpl. destruct b as [|p]; [reflexivity|].
      repeat (destruct p as [p|p|]; try reflexivity). congruence.
Qed.

(** Trailing whitespace is kept as it is by the substitution. *)
Lemma ansi_sub_app_blank (s ws : str) :
  blank ws -> ansi_sub (s ++ ws) = ansi_sub s ++ ws.
Proof.
  intros Hws. remember (length s) as n eqn:Hn.
  revert s Hn. induction n as [n IH] using lt_wf_ind. intros s Hn.
  destruct s as [|c t].
  - simpl. rewrite ansi_sub_plain by (apply blank_plain; assumption).
    simp ansi_sub. reflexivity.
  - rewrite ansi_sub_cons.
    change ((c :: t) ++ ws) with (c :: (t ++ ws)).
    rewrite ansi_sub_cons.
    change (c :: (t ++ ws)) with ((c :: t) ++ ws).
    rewrite match_ansi_app_blank by assumption.
    destruct (match_ansi (c :: t)) as [r|] eqn:E; simpl.
    + apply (IH (length r)); [|reflexivity].
      apply match_ansi_shorter in E. subst n. simpl in *. lia.
    + f_equal. apply (IH (length t)); [subst; simpl; lia | reflexivity].
Qed.

Lemma strip_ansi_len_rstrip (s : str) : strip_ansi_len (rstrip s) <= strip_ansi_len s.
Proof.
  destruct (rstrip_split s) as (ws & Hs & Hws).
  unfold strip_ansi_len. rewrite Hs at 2.
  rewrite ansi_sub_app_blank by assumption. rewrite length_app. lia.
Qed.

(** ** The wrapper loop and its annotated form *)

Section Wrapper.
Variable width : Z.
Variables first_prefix next_prefix : str.

Local Abbreviation step := (wrap_step width first_prefix next_prefix).
Local Abbreviation tstep := (trace_step width first_prefix next_prefix).
Local Abbreviation loop := (wrap_loop width first_prefix next_prefix).
Local Abbreviation tloop := (trace_loop width first_prefix next_prefix).

Lemma group_acc_snoc (g : group) (piece : str) :
  wf_group g ->
  group_acc (Group (g_prefix g) (g_trim g) (g_toks g ++ [piece]))
  = group_acc g ++ piece.
Proof.
  intros Hwf. unfold group_acc, group_body. simpl.
  destruct (g_trim g) eqn:Ht.
  - destruct (g_toks g) as [|t r] eqn:Er; [exfalso; apply Hwf; auto|].
    simpl. rewrite concat_app. simpl. rewrite app_nil_r, <- !app_assoc. reflexivity.
  - rewrite concat_app. simpl. rewrite app_nil_r, <- !app_assoc. reflexivity.
Qed.

Lemma trace_step_wf (tr : trace) (piece : str) :
  wf_group (open tr) -> wf_group (open (tstep tr piece)).
Proof.
  intros Hwf. unfold trace_step.
  destruct (negb (truthy piece)); [assumption|].
  destruct (_ || _).
  - unfold wf_group. simpl. intros Ht E. apply app_eq_nil in E. destruct E; discriminate.
  - destruct (_ >? _); unfold wf_group; simpl; congruence.
Qed.

(** Forgetting the annotation gives back the loop of the source. *)
Lemma trace_step_erase (tr : trace) (piece : str) :
  wf_group (open tr) ->
  trace_state (tstep tr piece) = step (trace_state tr) piece.
Proof.
  intros Hwf. unfold trace_step, wrap_step.
  destruct (negb (truthy piece)); [reflexivity|].
  cbn [trace_state cur lines closed open].
  destruct (_ || _).
  - unfold trace_state. cbn [closed open]. rewrite group_acc_snoc by assumption. reflexivity.
  - assert (E1 : group_acc (Group next_prefix true [piece]) = next_prefix ++ lstrip piece).
    { unfold group_acc, group_body. simpl. rewrite app_nil_r. reflexivity. }
    rewrite E1. destruct (_ >? _); unfold trace_state; cbn [closed open].
    + rewrite map_app. simpl. unfold group_line at 2 3. rewrite E1.
      unfold group_acc at 2. unfold group_body. simpl. rewrite app_nil_r, <- app_assoc.
      reflexivity.
    + rewrite map_app. simpl. rewrite E1. reflexivity.
Qed.

Lemma trace_loop_wf (pieces : list str) (tr : trace) :
  wf_group (open tr) -> wf_group (open (tloop pieces tr)).
Proof.
  revert tr. induction pieces as [|p ps IH]; intros tr Hwf; simpl; [assumption|].
  apply IH. apply trace_step_wf. assumption.
Qed.

Lemma trace_loop_erase (pieces : list str) (tr : trace) :
  wf_group (open tr) ->
  trace_state (tloop pieces tr) = loop pieces (trace_state tr).
Proof.
  revert tr. induction pieces as [|p ps IH]; intros tr Hwf; simpl; [reflexivity|].
  unfold trace_loop, wrap_loop in *. simpl.
  rewrite IH by (apply trace_step_wf; assumption).
  rewrite trace_step_erase by assumption. reflexivity.
Qed.

(** Every non-empty token enters exactly one group, at its end. *)
Lemma trace_step_toks (tr : trace) (piece : str) :
  concat (map g_toks (groups (tstep tr piece)))
  = concat (map g_toks (groups tr)) ++ (if truthy piece then [piece] else []).
Proof.
  unfold trace_step, groups.
  destruct (truthy piece); simpl; [|rewrite app_nil_r; reflexivity].
  destruct (_ || _); [|destruct (_ >? _)]; cbn [closed open];
    rewrite ?map_app, ?concat_app; simpl; rewrite ?app_nil_r, <- ?app_assoc;
    reflexivity.
Qed.

Lemma trace_loop_toks (pieces : list str) (tr : trace) :
  concat (map g_toks (groups (tloop pieces tr)))
  = concat (map g_toks (groups tr)) ++ List.filter truthy pieces.
Proof.
  revert tr. induction pieces as [|p ps IH]; intros tr; simpl.
  - rewrite app_nil_r. reflexivity.
  - unfold trace_loop in *. simpl. rewrite IH, trace_step_toks.
    destruct (truthy p); simpl; rewrite <- ?app_assoc, ?app_nil_r; reflexivity.
Qed.

(** New groups are seeded with the continuation prefix. *)
Lemma trace_step_prefix (tr : trace) (piece : str) :
  exists k,
    map g_prefix (groups (tstep tr piece))
    = map g_prefix (groups tr) ++ repeat next_prefix k.
Proof.
  unfold trace_step, groups.
  destruct (negb (truthy piece)); [exists 0%nat; simpl; rewrite app_nil_r; reflexivity|].
  destruct (_ || _); [|destruct (_ >? _)]; cbn [closed open].
  - exists 0%nat. rewrite !map_app. simpl. rewrite app_nil_r. reflexivity.
  - exists 2%nat. rewrite !map_app. simpl. rewrite <- !app_assoc. reflexivity.
  - exists 1%nat. rewrite !map_app. simpl. rewrite <- !app_assoc. reflexivity.
Qed.

Lemma trace_loop_prefix (pieces : list str) (tr : trace) :
  exists k,
    map g_prefix (groups (tloop pieces tr))
    = map g_prefix (groups tr) ++ repeat next_prefix k.
Proof.
  revert tr. induction pieces as [|p ps IH]; intros tr; simpl.
  - exists 0%nat. simpl. rewrite app_nil_r. reflexivity.
  - unfold trace_loop in *. simpl.
    destruct (IH (tstep tr p)) as (k1 & H1).
    destruct (trace_step_prefix tr p) as (k2 & H2).
    exists (k2 + k1)%nat. rewrite H1, H2, repeat_app, app_assoc. reflexivity.
Qed.

(** The first group stays the first one, trimmed or not as it was. *)
Lemma trace_step_head (tr : trace) (piece : str) :
  g_trim (hd (open (tstep tr piece)) (closed (tstep tr piece)))
  = g_trim (hd (open tr) (closed tr)).
Proof.
  unfold trace_step.
  destruct (negb (truthy piece)); [reflexivity|].
  destruct (_ || _); [|destruct (_ >? _)]; cbn [closed open];
    destruct (closed tr); reflexivity.
Qed.

Lemma trace_loop_head (pieces : list str) (tr : trace) :
  g_trim (hd (open (tloop pieces tr)) (closed (tloop pieces tr)))
  = g_trim (hd (open tr) (closed tr)).
Proof.
  revert tr. induction pieces as [|p ps IH]; intros tr; simpl; [reflexivity|].
  unfold trace_loop in *. simpl. rewrite IH. apply trace_step_head.
Qed.
End Wrapper.

(** The layout of the result: the non-empty tokens fall, in order, into
    consecutive groups; a line is the right-trimmed accumulator of a
    group; the last accumulator gives a line only if it is not blank. *)
Lemma wrap_trace_layout (pieces : list str) (width : Z) (first_prefix next_prefix : str) :
  let tr := wrap_trace pieces width first_prefix next_prefix in
  concat (map g_toks (groups tr)) = List.filter truthy pieces
  /\ map g_prefix (groups tr)
     = first_prefix :: repeat next_prefix (length (closed tr))
  /\ g_trim (hd (open tr) (closed tr)) = false
  /\ wrap_pieces pieces width first_prefix next_prefix
     = map group_line (closed tr)
       ++ (if truthy (strip (group_acc (open tr))) then [group_line (open tr)]
           else []).
Proof.
  unfold wrap_trace.
  set (tr0 := Trace [] (Group first_prefix false [])).
  assert (Hwf : wf_group (open tr0)) by (unfold wf_group; simpl; congruence).
  set (tr := trace_loop width first_prefix next_prefix pieces tr0).
  pose proof (trace_loop_toks width first_prefix next_prefix pieces tr0) as Ht.
  destruct (trace_loop_prefix width first_prefix next_prefix pieces tr0) as (k & Hp).
  pose proof (trace_loop_head width first_prefix next_prefix pieces tr0) as Hh.
  pose proof (trace_loop_erase width first_prefix next_prefix pieces tr0 Hwf) as He.
  fold tr in Ht, Hp, Hh, He. cbv zeta. unfold groups in *. simpl in Ht, Hp, Hh.
  repeat split.
  - exact Ht.
  - rewrite Hp. f_equal. f_equal.
    apply (f_equal (@length str)) in Hp.
    rewrite length_map, length_app in Hp. simpl in Hp. rewrite repeat_length in Hp. lia.
  - exact Hh.
  - unfold wrap_pieces.
    replace (WrapState [] first_prefix) with (trace_state tr0)
      by (unfold trace_state, group_acc, group_body; simpl;
          rewrite app_nil_r; reflexivity).
    rewrite <- He. unfold trace_state. simpl.
    destruct (truthy (strip (group_acc (open tr))));
      rewrite ?app_nil_r; reflexivity.
Qed.

(** ** Neighbouring groups *)




Section Neighbours.
Variable width : Z.
Variables first_prefix next_prefix : str.

Local Abbreviation tstep := (trace_step width first_prefix next_prefix).
Local Abbreviation tloop := (trace_loop width first_prefix next_prefix).


End Neighbours.


(** ** Width of the lines *)

Section Width.
Variable width : Z.
Variables first_prefix next_prefix : str.
Variable all : list str.

Local Abbreviation step := (wrap_step width first_prefix next_prefix).
Local Abbreviation loop := (wrap_loop width first_prefix next_prefix).

Let acc_ok (c : str) : Prop :=
  strip_ansi_len c <= width \/ unsplit_acc first_prefix next_prefix all c.
Let line_ok (l : str) : Prop :=
  strip_ansi_len l <= width
  \/ exists c, unsplit_acc first_prefix next_prefix all c /\ l = rstrip c.

Lemma acc_ok_line_ok (c : str) : acc_ok c -> line_ok (rstrip c).
Proof.
  intros [H|H].
  - left. pose proof (strip_ansi_len_rstrip c). lia.
  - right. exists c. split; [assumption | reflexivity].
Qed.

Lemma wrap_step_width (st : wrap_state) (piece : str) :
  In piece all ->
  acc_ok (cur st) -> Forall line_ok (lines st) ->
  acc_ok (cur (step st piece)) /\ Forall line_ok (lines (step st piece)).
Proof.
  intros Hin Hc Hl. unfold wrap_step.
  destruct (negb (truthy piece)); [split; assumption|].
  destruct (strip_ansi_len (cur st ++ piece) <=? width) eqn:E1; simpl.
  { split; [|assumption]. left. apply Z.leb_le. exact E1. }
  destruct (strip_ansi_len (cur st) <=? strip_ansi_len first_prefix) eqn:E2; simpl.
  { split; [|assumption]. right. right. right. right.
    exists (cur st), piece. apply Z.leb_le in E2. auto. }
  destruct (strip_ansi_len (next_prefix ++ lstrip piece) >? width) eqn:E3; simpl.
  - split; [right; right; left; reflexivity|].
    rewrite !Forall_app. repeat split; try assumption.
    + constructor; [apply acc_ok_line_ok; assumption | constructor].
    + constructor; [|constructor]. right. exists (next_prefix ++ lstrip piece).
      split; [|reflexivity]. right. right. left. exists piece. auto.
  - split.
    + left. rewrite Z.gtb_ltb in E3. apply Z.ltb_ge in E3. exact E3.
    + rewrite Forall_app. split; [assumption|].
      constructor; [apply acc_ok_line_ok; assumption | constructor].
Qed.

Lemma wrap_loop_width (pieces : list str) (st : wrap_state) :
  incl pieces all ->
  acc_ok (cur st) -> Forall line_ok (lines st) ->
  acc_ok (cur (loop pieces st)) /\ Forall line_ok (lines (loop pieces st)).
Proof.
  revert st. induction pieces as [|p ps IH]; intros st Hincl Hc Hl; simpl.
  - split; assumption.
  - unfold wrap_loop in *. simpl.
    destruct (wrap_step_width st p) as [Hc' Hl']; try assumption.
    { apply Hincl. left. reflexivity. }
    apply IH; try assumption.
    intros x Hx. apply Hincl. right. exact Hx.
Qed.
End Width.

(** ** Acceptance of a token and its placement *)

Lemma snoc_neq {A} (l : list A) (x : A) : l ++ [x] <> l.
Proof.
  intros E. apply (f_equal (@length A)) in E. rewrite length_app in E. simpl in E. lia.
Qed.

Lemma snoc2_neq {A} (l : list A) (x y : A) : (l ++ [x]) ++ [y] <> l.
Proof.
  intros E. apply (f_equal (@length A)) in E. rewrite !length_app in E. simpl in E. lia.
Qed.

Lemma wrap_step_accepts (width : Z) (first_prefix next_prefix : str)
    (st : wrap_state) (piece : str) :
  truthy piece = true ->
  wrap_step width first_prefix next_prefix st piece
    = WrapState (lines st) (cur st ++ piece)
  <-> (strip_ansi_len (cur st ++ piece) <= width
       \/ strip_ansi_len (cur st) <= strip_ansi_len first_prefix).
Proof.
  intros Hp. unfold wrap_step. rewrite Hp. simpl.
  destruct (strip_ansi_len (cur st ++ piece) <=? width) eqn:E1; simpl.
  { apply Z.leb_le in E1. tauto. }
  destruct (strip_ansi_len (cur st) <=? strip_ansi_len first_prefix) eqn:E2; simpl.
  { apply Z.leb_le in E2. tauto. }
  apply Z.leb_gt in E1, E2. split; [|lia].
  intros H. exfalso.
  destruct (_ >? _); inversion H as [[Hl Hc]].
  - apply snoc2_neq in Hl. exact Hl.
  - apply snoc_neq in Hl. exact Hl.
Qed.

Lemma lstrip_not_blank (t : str) : ~ blank t -> ~ blank (lstrip t).
Proof.
  intros H Hb. apply H. destruct (lstrip_split t) as (ws & Ht & Hws).
  rewrite Ht. apply blank_app. split; assumption.
Qed.

(** Right-trimming a text keeps everything up to the right-trimmed form
    of any part of it that is not blank. *)
Lemma rstrip_keeps (a t y : str) :
  ~ blank t -> exists b, rstrip (a ++ t ++ y) = a ++ rstrip t ++ b.
Proof.
  intros Ht.
  assert (Hty : rstrip (t ++ y) <> []).
  { apply rstrip_not_blank. intros Hb. apply blank_app in Hb. tauto. }
  rewrite (rstrip_app a (t ++ y)) by assumption.
  destruct (rstrip y) as [|d r] eqn:Ey.
  - exists []. rewrite (rstrip_app_blank t y) by (apply rstrip_nil_blank; assumption).
    rewrite app_nil_r. reflexivity.
  - rewrite (rstrip_app t y) by (rewrite Ey; discriminate).
    destruct (rstrip_split t) as (ws & Hs & Hws).
    exists (ws ++ rstrip y). rewrite Ey. rewrite Hs at 1.
    rewrite <- !app_assoc. reflexivity.
Qed.

(** A token that is not blank shows, trimmed, in the line of its group. *)
Lemma group_line_contains (g : group) (t : str) :
  In t (g_toks g) -> ~ blank t ->
  ~ blank (group_acc g)
  /\ exists a b, group_line g = a ++ strip t ++ b.
Proof.
  intros Hin Ht.
  assert (Hbody : exists x y t', group_body g = x ++ t' ++ y /\ (t' = t \/ t' = lstrip t)).
  { unfold group_body. apply in_split in Hin. destruct Hin as (l1 & l2 & E).
    rewrite E. destruct (g_trim g).
    - destruct l1 as [|u l1]; simpl.
      + exists [], (concat l2), (lstrip t). auto.
      + exists (lstrip u ++ concat l1), (concat l2), t.
        rewrite concat_app. simpl. rewrite <- !app_assoc. auto.
    - exists (concat l1), (concat l2), t. rewrite concat_app. simpl. auto. }
  destruct Hbody as (x & y & t' & Hb & Ht').
  assert (Hnb : ~ blank t') by (destruct Ht' as [->| ->]; [assumption | apply lstrip_not_blank; assumption]).
  unfold group_line, group_acc. rewrite Hb. split.
  - intros H. rewrite !blank_app in H. tauto.
  - rewrite app_assoc.
    destruct (rstrip_keeps (g_prefix g ++ x) t' y Hnb) as (b & E). rewrite E.
    destruct Ht' as [->| ->].
    + destruct (lstrip_split (rstrip t)) as (ws & Hs & _).
      exists ((g_prefix g ++ x) ++ ws), b. unfold strip. rewrite Hs at 1.
      rewrite <- !app_assoc. reflexivity.
    + exists (g_prefix g ++ x), b. rewrite rstrip_lstrip. reflexivity.
Qed.

Lemma wrap_pieces_places (pieces : list str) (width : Z)
    (first_prefix next_prefix : str) (t : str) :
  In t pieces -> ~ blank t ->
  exists line a b,
    In line (wrap_pieces pieces width first_prefix next_prefix)
    /\ line = a ++ strip t ++ b.
Proof.
  intros Hin Ht.
  destruct (wrap_trace_layout pieces width first_prefix next_prefix)
    as (Htoks & _ & _ & Hres).
  unfold groups in Htoks.
  set (gs := closed (wrap_trace pieces width first_prefix next_prefix)) in *.
  set (last := open (wrap_trace pieces width first_prefix next_prefix)) in *.
  assert (Hin' : In t (List.filter truthy pieces)).
  { apply filter_In. split; [assumption|].
    destruct t; [exfalso; apply Ht; constructor | reflexivity]. }
  rewrite <- Htoks in Hin'. apply in_concat in Hin'.
  destruct Hin' as (toks & Htk & Hint).
  apply in_map_iff in Htk. destruct Htk as (g & <- & Hg).
  destruct (group_line_contains g t Hint Ht) as (Hnb & a & b & E).
  exists (group_line g), a, b. split; [|exact E].
  rewrite Hres. apply in_or_app. apply in_app_or in Hg.
  destruct Hg as [Hg|[<-|[]]].
  - left. apply in_map. exact Hg.
  - right. apply strip_truthy_iff in Hnb. rewrite Hnb. left. reflexivity.
Qed.

(** ** Degenerate widths *)

Lemma strip_ansi_len_nil : strip_ansi_len [] = 0.
Proof. reflexivity. Qed.

Lemma plain_app (a b : str) : plain a -> plain b -> plain (a ++ b).
Proof. intros Ha Hb. apply Forall_app. split; assumption. Qed.

(** *** Texts that end no styling sequence halfway *)

Lemma strip_ansi_len_nonneg (s : str) : 0 <= strip_ansi_len s.
Proof. unfold strip_ansi_len. lia. Qed.

Lemma additive_app (a b : str) : additive a -> additive b -> additive (a ++ b).
Proof.
  intros Ha Hb y. rewrite <- app_assoc, Ha, Hb, Ha. lia.
Qed.

Lemma ansi_sub_plain_app (a b : str) :
  plain a -> ansi_sub (a ++ b) = a ++ ansi_sub b.
Proof.
  induction 1 as [|c a Hc _ IH]; [reflexivity|].
  change ((c :: a) ++ b) with (c :: (a ++ b)).
  rewrite ansi_sub_cons, match_ansi_not_esc by assumption.
  rewrite IH. reflexivity.
Qed.

Lemma skip_params_run (ps r : str) :
  Forall (fun c => is_param c = true) ps -> skip_params (ps ++ r) = skip_params r.
Proof.
  induction 1 as [|c ps Hc _ IH]; simpl; [reflexivity|].
  rewrite Hc. exact IH.
Qed.

Lemma ansi_sub_sgr (code rest : str) :
  Forall (fun c => is_param c = true) code ->
  ansi_sub (sgr code ++ rest) = ansi_sub rest.
Proof.
  intros Hps. unfold sgr.
  change ((27%N :: 91%N :: code ++ [109%N]) ++ rest)
    with (27%N :: 91%N :: (code ++ [109%N]) ++ rest).
  rewrite <- app_assoc. change ([109%N] ++ rest) with (109%N :: rest).
  rewrite ansi_sub_cons.
  change (match_ansi (27%N :: 91%N :: code ++ 109%N :: rest))
    with (match skip_params (code ++ 109%N :: rest) with
          | 109%N :: r => Some r
          | _ => None
          end).
  rewrite skip_params_run by assumption. reflexivity.
Qed.

Lemma additive_nil : additive [].
Proof. intros y. reflexivity. Qed.

Lemma additive_plain (a : str) : plain a -> additive a.
Proof.
  intros Ha y. rewrite (strip_ansi_len_plain a Ha). unfold strip_ansi_len.
  rewrite ansi_sub_plain_app by assumption. rewrite length_app. lia.
Qed.

Lemma additive_sgr (code : str) :
  Forall (fun c => is_param c = true) code -> additive (sgr code).
Proof.
  intros Hc y. unfold strip_ansi_len.
  rewrite (ansi_sub_sgr code y Hc).
  rewrite <- (app_nil_r (sgr code)). rewrite (ansi_sub_sgr code [] Hc).
  reflexivity.
Qed.

Lemma demo_color_code_params (color : str) :
  Forall (fun c => is_param c = true) (demo_color_code color).
Proof.
  unfold demo_color_code.
  repeat (destruct (bool_decide _)); repeat constructor.
Qed.

Lemma additive_demo_colored (text color : str) (attrs : list str) :
  plain text -> additive (demo_colored text color attrs).
Proof.
  intros Ht. unfold demo_colored. apply additive_app.
  - induction attrs as [|a attrs IH]; cbn [map concat]; [apply additive_nil|].
    apply additive_app; [|exact IH]. apply additive_sgr. repeat constructor.
  - apply additive_app; [apply additive_sgr, demo_color_code_params|].
    apply additive_app; [apply additive_plain, Ht|].
    apply additive_sgr. repeat constructor.
Qed.

(** *** No accumulator takes a second token *)

Section NoSharing.
Variable width : Z.
Variables first_prefix next_prefix : str.
Hypothesis width_nonpositive : width <= 0.
Hypothesis first_additive : additive first_prefix.
Hypothesis next_additive : additive next_prefix.
Hypothesis first_narrower :
  strip_ansi_len first_prefix <= strip_ansi_len next_prefix.

Local Abbreviation tstep := (trace_step width first_prefix next_prefix).
Local Abbreviation tloop := (trace_loop width first_prefix next_prefix).

Let at_most_one (g : group) : Prop := (length (g_toks g) <= 1)%nat.

(** What the scan needs of a token behind the first one. *)
Let token_ok (t : str) : Prop :=
  additive t
  /\ (strip_ansi_len first_prefix < strip_ansi_len next_prefix
      \/ t = []
      \/ (0 < strip_ansi_len t
          /\ width < strip_ansi_len next_prefix + strip_ansi_len (lstrip t))).

(** The open group: the bare continuation prefix, or a prefix with one
    token that keeps the next one out. *)
Let open_ok (g : group) : Prop :=
  g_trim g = false
  /\ ((g_prefix g = next_prefix /\ g_toks g = [])
      \/ exists t,
           (g_prefix g = first_prefix \/ g_prefix g = next_prefix)
           /\ g_toks g = [t] /\ additive t
           /\ (0 < strip_ansi_len t
               \/ strip_ansi_len first_prefix < strip_ansi_len (g_prefix g))).

Lemma trace_step_single (tr : trace) (piece : str) :
  token_ok piece ->
  Forall at_most_one (closed tr) -> open_ok (open tr) ->
  Forall at_most_one (closed (tstep tr piece)) /\ open_ok (open (tstep tr piece)).
Proof.
  intros (Hadd & Hok) Hcl (Htrim & Hopen). unfold trace_step.
  destruct piece as [|d p']; [split; [assumption | split; assumption]|].
  cbn [truthy negb]. set (piece := d :: p') in *.
  assert (Hg1 : group_acc (Group next_prefix true [piece]) = next_prefix ++ lstrip piece).
  { unfold group_acc, group_body. simpl. rewrite app_nil_r. reflexivity. }
  rewrite Hg1.
  pose proof (strip_ansi_len_nonneg first_prefix) as N1.
  pose proof (strip_ansi_len_nonneg (lstrip piece)) as N2.
  pose proof (strip_ansi_len_nonneg piece) as N3.
  assert (Hone : Forall at_most_one [open tr; Group next_prefix true [piece]]).
  { constructor; [|constructor; [|constructor]]; unfold at_most_one; simpl; [|lia].
    destruct Hopen as [[_ ->] | (t & _ & -> & _)]; simpl; lia. }
  destruct Hopen as [[Hp Ht] | (t & Hp & Ht & Hat & Htag)].
  - (* the bare continuation prefix *)
    assert (Hacc : group_acc (open tr) = next_prefix).
    { unfold group_acc, group_body. rewrite Htrim, Hp, Ht. simpl. apply app_nil_r. }
    rewrite Hacc.
    destruct ((strip_ansi_len (next_prefix ++ piece) <=? width)
              || (strip_ansi_len next_prefix <=? strip_ansi_len first_prefix)) eqn:E;
      cbn [closed open].
    + split; [assumption|]. split; [exact Htrim|]. right.
      exists piece. rewrite Hp, Ht. repeat split; auto.
      destruct Hok as [H|[H|[H _]]]; [right; exact H | discriminate | left; exact H].
    + apply orb_false_iff in E. destruct E as [_ E]. apply Z.leb_gt in E.
      assert (Hclose : (strip_ansi_len (next_prefix ++ lstrip piece) >? width) = true).
      { rewrite Z.gtb_ltb. apply Z.ltb_lt. rewrite next_additive. lia. }
      rewrite Hclose. cbn [closed open]. split.
      * apply Forall_app. split; assumption.
      * split; [reflexivity|]. left. split; reflexivity.
  - (* a prefix and one token *)
    assert (Hpa : additive (g_prefix (open tr)))
      by (destruct Hp as [-> | ->]; assumption).
    assert (Hpw : strip_ansi_len first_prefix <= strip_ansi_len (g_prefix (open tr)))
      by (destruct Hp as [-> | ->]; lia).
    assert (Hacc : group_acc (open tr) = g_prefix (open tr) ++ t).
    { unfold group_acc, group_body. rewrite Htrim, Ht. simpl. rewrite app_nil_r.
      reflexivity. }
    rewrite Hacc.
    pose proof (strip_ansi_len_nonneg t) as N4.
    assert (E1 : (strip_ansi_len ((g_prefix (open tr) ++ t) ++ piece) <=? width) = false).
    { apply Z.leb_gt. rewrite (additive_app _ _ Hpa Hat), Hpa. lia. }
    assert (E2 : (strip_ansi_len (g_prefix (open tr) ++ t)
                  <=? strip_ansi_len first_prefix) = false).
    { apply Z.leb_gt. rewrite Hpa. lia. }
    rewrite E1, E2. cbn [orb].
    assert (Hclose : (strip_ansi_len (next_prefix ++ lstrip piece) >? width) = true).
    { rewrite Z.gtb_ltb. apply Z.ltb_lt. rewrite next_additive.
      destruct Hok as [H|[H|[_ H]]]; [lia | discriminate | lia]. }
    rewrite Hclose. cbn [closed open]. split.
    + apply Forall_app. split; assumption.
    + split; [reflexivity|]. left. split; reflexivity.
Qed.

Lemma trace_loop_single (pieces : list str) (tr : trace) :
  Forall token_ok pieces ->
  Forall at_most_one (closed tr) -> open_ok (open tr) ->
  Forall at_most_one (groups (tloop pieces tr)).
Proof.
  intros Hps. revert tr. induction Hps as [|p ps Hp _ IH]; intros tr Hcl Hop.
  - unfold groups. simpl. apply Forall_app. split; [assumption|].
    constructor; [|constructor]. unfold at_most_one.
    destruct Hop as (_ & [[_ ->] | (t & _ & -> & _)]); simpl; lia.
  - unfold trace_loop in *. simpl.
    destruct (trace_step_single tr p Hp Hcl Hop) as [H1 H2].
    apply IH; assumption.
Qed.

(** From the start of the scan: the first token that is not empty enters
    the first accumulator. *)
Lemma trace_loop_single_start (pieces : list str) :
  Forall token_ok pieces ->
  match List.filter truthy pieces with
  | [] => True
  | t :: _ => 0 < strip_ansi_len t
  end ->
  Forall at_most_one
    (groups (tloop pieces (Trace [] (Group first_prefix false [])))).
Proof.
  induction 1 as [|p ps Hp Hps IH]; intros Hfirst.
  - unfold groups. simpl. repeat constructor.
  - unfold trace_loop in *. cbn [fold_left].
    destruct p as [|d p'].
    + apply IH. exact Hfirst.
    + set (p := d :: p') in *. cbn [List.filter truthy] in Hfirst.
      assert (Hstep : tstep (Trace [] (Group first_prefix false [])) p
                      = Trace [] (Group first_prefix false [p])).
      { unfold trace_step. cbn [truthy negb open closed g_prefix g_trim g_toks].
        assert (Hacc : group_acc (Group first_prefix false []) = first_prefix).
        { unfold group_acc, group_body. simpl. apply app_nil_r. }
        rewrite Hacc, Z.leb_refl, orb_true_r. reflexivity. }
      rewrite Hstep. apply (trace_loop_single ps); [exact Hps | constructor |].
      split; [reflexivity|]. right. exists p. cbn [g_prefix g_toks].
      destruct Hp as [Hadd _]. repeat split; auto.
Qed.
End NoSharing.

(** *** The default prefixes *)

Lemma rstrip_cons_keep (c : N) (t : str) :
  isspace c = false -> rstrip (c :: t) = c :: rstrip t.
Proof. intros Hc. simpl. rewrite Hc. destruct (rstrip t); reflexivity. Qed.

Lemma lstrip_fixed_strip (s : str) :
  lstrip s = s -> truthy (strip s) = truthy s.
Proof.
  destruct s as [|c t]; [reflexivity|]. simpl lstrip.
  destruct (isspace c) eqn:Hc.
  - intros H. exfalso.
    destruct (lstrip_split t) as (ws & Hws & _).
    apply (f_equal (@length N)) in H. rewrite Hws in H at 2.
    simpl in H. rewrite length_app in H. lia.
  - intros _. unfold strip. rewrite (rstrip_cons_keep c t Hc). simpl.
    rewrite Hc. reflexivity.
Qed.

Section DefaultPrefixes.
Variable width : Z.
Hypothesis width_nonpositive : width <= 0.

Let visible (t : str) : Prop :=
  additive t /\ 0 < strip_ansi_len t /\ lstrip t = t.

(** A token enters an empty accumulator by the comparison with the first
    prefix ... *)
Lemma wrap_step_nonpositive_empty (ls : list str) (p : str) :
  wrap_step width [] [] (WrapState ls []) p = WrapState ls p.
Proof.
  unfold wrap_step. destruct p as [|d p']; [reflexivity|].
  cbn [truthy negb cur lines app].
  rewrite strip_ansi_len_nil, Z.leb_refl, orb_true_r. reflexivity.
Qed.

(** ... and closes a filled one, and its own line at once. *)
Lemma wrap_step_nonpositive_filled (ls : list str) (c p : str) :
  visible c -> visible p ->
  wrap_step width [] [] (WrapState ls c) p
  = WrapState ((ls ++ [rstrip c]) ++ [rstrip p]) [].
Proof.
  intros (Hca & Hcv & _) (Hpa & Hpv & Hpl). unfold wrap_step.
  destruct p as [|d p']; [discriminate Hpv|]. set (p := d :: p') in *.
  change (truthy p) with true. cbn [negb cur lines].
  rewrite Hca, strip_ansi_len_nil.
  assert (E1 : (strip_ansi_len c + strip_ansi_len p <=? width) = false)
    by (apply Z.leb_gt; lia).
  assert (E2 : (strip_ansi_len c <=? 0) = false) by (apply Z.leb_gt; lia).
  rewrite E1, E2. cbn [orb]. rewrite Hpl. change ([] ++ p) with p.
  assert (E3 : (strip_ansi_len p >? width) = true)
    by (rewrite Z.gtb_ltb; apply Z.ltb_lt; lia).
  rewrite E3. reflexivity.
Qed.

Lemma wrap_loop_nonpositive (pieces : list str) (ls : list str) (c : str) :
  Forall (fun t => t = [] \/ visible t) pieces -> c = [] \/ visible c ->
  let st := wrap_loop width [] [] pieces (WrapState ls c) in
  (cur st = [] \/ visible (cur st))
  /\ lines st ++ (if truthy (cur st) then [rstrip (cur st)] else [])
     = ls ++ (if truthy c then [rstrip c] else [])
       ++ map rstrip (List.filter truthy pieces).
Proof.
  intros Hps. revert ls c.
  induction Hps as [|p ps Hp _ IH]; intros ls c Hc; simpl.
  - rewrite app_nil_r. split; [assumption | reflexivity].
  - unfold wrap_loop in *. simpl.
    destruct Hp as [-> | Hp].
    { change (wrap_step width [] [] (WrapState ls c) []) with (WrapState ls c).
      simpl. apply IH. assumption. }
    assert (Hne : truthy p = true).
    { destruct p; [|reflexivity]. destruct Hp as (_ & H & _). discriminate H. }
    rewrite Hne. cbv iota.
    destruct Hc as [-> | Hc].
    + rewrite wrap_step_nonpositive_empty.
      destruct (IH ls p (or_intror Hp)) as [H1 H2]. split; [exact H1|].
      rewrite H2, Hne. reflexivity.
    + rewrite wrap_step_nonpositive_filled by assumption.
      destruct (IH ((ls ++ [rstrip c]) ++ [rstrip p]) [] (or_introl eq_refl))
        as [H1 H2].
      split; [exact H1|]. rewrite H2.
      assert (Hnc : truthy c = true).
      { destruct c; [|reflexivity]. destruct Hc as (_ & H & _). discriminate H. }
      rewrite Hnc. simpl. rewrite <- !app_assoc. reflexivity.
Qed.

Lemma wrap_pieces_nonpositive (pieces : list str) :
  Forall (fun t => t = [] \/ visible t) pieces ->
  wrap_pieces pieces width [] [] = map rstrip (List.filter truthy pieces).
Proof.
  intros Hps. unfold wrap_pieces.
  destruct (wrap_loop_nonpositive pieces [] [] Hps (or_introl eq_refl)) as [Hs H].
  simpl in H.
  set (st := wrap_loop width [] [] pieces _) in *.
  assert (Hl : lstrip (cur st) = cur st)
    by (destruct Hs as [-> | (_ & _ & Hl)]; [reflexivity | exact Hl]).
  rewrite (lstrip_fixed_strip _ Hl), <- H.
  destruct (truthy (cur st)); rewrite ?app_nil_r; reflexivity.
Qed.
End DefaultPrefixes.

(** ** Empty tokens and a blank last accumulator *)

Lemma wrap_loop_all_empty (width : Z) (first_prefix next_prefix : str)
    (pieces : list str) (st : wrap_state) :
  Forall (fun p => p = []) pieces ->
  wrap_loop width first_prefix next_prefix pieces st = st.
Proof.
  intros H. revert st. induction H as [|p ps -> _ IH]; intros st; [reflexivity|].
  unfold wrap_loop in *. simpl. apply IH.
Qed.

(** ** The classifier *)

Lemma after_first_slash_spec (r l : str) :
  after_first_slash r = Some l
  <-> exists a, ~ In 47%N a /\ r = a ++ 47%N :: l.
Proof.
  split.
  - revert l. induction r as [|c t IH]; intros l H; simpl in H; [discriminate|].
    destruct (c =? 47)%N eqn:E.
    + apply N.eqb_eq in E. subst c. inversion H; subst.
      exists []. split; [intros [] | reflexivity].
    + apply N.eqb_neq in E. destruct (IH l H) as (a & Ha & ->).
      exists (c :: a). split; [|reflexivity].
      intros [Hc|Hc]; [congruence | tauto].
  - intros (a & Ha & ->). induction a as [|c a IH]; simpl.
    + reflexivity.
    + destruct (c =? 47)%N eqn:E.
      * apply N.eqb_eq in E. exfalso. apply Ha. left. exact E.
      * apply IH. intros Hc. apply Ha. right. exact Hc.
Qed.

Lemma has_slash_after (r : str) :
  has_slash r = false -> after_first_slash r = None.
Proof.
  unfold has_slash. induction r as [|c t IH]; [reflexivity|].
  cbn [existsb after_first_slash]. rewrite (N.eqb_sym 47 c). destruct (c =? 47)%N; simpl; [intros; discriminate | exact IH].
Qed.

Lemma elem_of_remote_leaf_names (l : str) (remotes : list str) :
  l ∈ remote_leaf_names remotes <-> In (Some l) (map after_first_slash remotes).
Proof.
  induction remotes as [|r rs IH]; simpl.
  - rewrite elem_of_empty. tauto.
  - destruct (has_slash r) eqn:Hs.
    + destruct (after_first_slash r) as [leaf|] eqn:E.
      * rewrite elem_of_union, elem_of_singleton, IH.
        split; intros [H|H]; auto; left; congruence.
      * rewrite IH. split; [auto | intros [H|H]; [discriminate | assumption]].
    + rewrite (has_slash_after r Hs), IH.
      split; [auto | intros [H|H]; [discriminate | assumption]].
Qed.

Lemma local_only_In (locals remotes : list str) (l : str) :
  In l (local_branches_not_on_any_remote locals remotes)
  <-> In l locals /\ ~ In (Some l) (map after_first_slash remotes).
Proof.
  unfold local_branches_not_on_any_remote. rewrite filter_In.
  rewrite negb_true_iff, bool_decide_eq_false, elem_of_remote_leaf_names.
  reflexivity.
Qed.


(** ** The date formatter *)

Lemma ordinal_spec_eq (d : Z) : ordinal d = ordinal_suffix_spec d.
Proof.
  unfold ordinal, ordinal_suffix_spec.
  destruct ((11 <=? d) && (d <=? 13)); [reflexivity|].
  destruct (d mod 10) as [|p|p]; try reflexivity.
  do 3 (destruct p as [p|p|]; try reflexivity).
Qed.

Lemma offset_hours_truncates (off : timedelta) :
  offset_hours off = truncate_toward_zero (total_microseconds off) 3600000000.
Proof.
  unfold offset_hours, truncate_toward_zero.
  rewrite Z.quot_div by lia.
  change (Z.sgn 3600000000) with 1. change (Z.abs 3600000000) with 3600000000.
  lia.
Qed.

Lemma tz_str_spec (dt : datetime) : tz_str dt = timezone_spec dt.
Proof.
  unfold tz_str, timezone_spec. destruct (utcoffset dt) as [off|]; [|reflexivity].
  rewrite <- offset_hours_truncates. cbv zeta. f_equal.
  unfold format_int_signed. destruct (Z.ltb_spec (offset_hours off) 0).
  - rewrite Z.abs_neq by lia. reflexivity.
  - rewrite Z.abs_eq by lia. reflexivity.
Qed.

(** ** Sorting *)
Section SortFacts.
Context {A K : Type}.
Variable key : A -> K.
Variable lt : K -> K -> bool.
Variable rank : K -> Z.
Hypothesis lt_rank : forall a b, lt a b = (rank a <? rank b).

Let desc (a b : A) : Prop := rank (key b) <= rank (key a).

Lemma insert_desc_perm (x : A) (l : list A) :
  Permutation (x :: l) (insert_desc key lt x l).
Proof.
  induction l as [|y r IH]; simpl; [constructor; constructor|].
  destruct (lt (key x) (key y)); [|apply Permutation_refl].
  eapply perm_trans; [apply perm_swap|]. constructor. exact IH.
Qed.

Lemma sort_reverse_perm (l : list A) :
  Permutation l (sort_reverse key lt l).
Proof.
  induction l as [|x l IH]; simpl; [constructor|].
  eapply perm_trans; [|apply insert_desc_perm]. constructor. exact IH.
Qed.

Lemma insert_desc_sorted (x : A) (l : list A) :
  StronglySorted desc l -> StronglySorted desc (insert_desc key lt x l).
Proof.
  induction 1 as [|y r Hr IH Hy]; simpl; [repeat constructor|].
  rewrite lt_rank. destruct (Z.ltb_spec (rank (key x)) (rank (key y))) as [Hlt|Hge].
  - constructor; [exact IH|].
    rewrite List.Forall_forall in *. intros z Hz.
    apply (Permutation_in _ (Permutation_sym (insert_desc_perm x r))) in Hz.
    destruct Hz as [<-|Hz]; [unfold desc; lia | apply Hy; exact Hz].
  - constructor; [constructor; assumption|].
    constructor; [exact Hge|].
    rewrite List.Forall_forall in *. intros z Hz. specialize (Hy z Hz).
    unfold desc in *. lia.
Qed.

Lemma sort_reverse_sorted (l : list A) :
  StronglySorted desc (sort_reverse key lt l).
Proof.
  induction l as [|x l IH]; simpl; [constructor|].
  apply insert_desc_sorted. exact IH.
Qed.

(** Among the elements of one rank, the order of the input is kept. *)
Lemma insert_desc_stable (k : Z) (x : A) (l : list A) :
  List.filter (fun a => rank (key a) =? k) (insert_desc key lt x l)
  = List.filter (fun a => rank (key a) =? k) (x :: l).
Proof.
  induction l as [|y r IH]; [reflexivity|].
  cbn [insert_desc]. rewrite lt_rank.
  destruct (Z.ltb_spec (rank (key x)) (rank (key y))) as [Hlt|Hge]; [|reflexivity].
  cbn [List.filter] in *. rewrite IH.
  destruct (Z.eqb_spec (rank (key x)) k), (Z.eqb_spec (rank (key y)) k);
    try reflexivity. lia.
Qed.

Lemma sort_reverse_stable (k : Z) (l : list A) :
  List.filter (fun a => rank (key a) =? k) (sort_reverse key lt l)
  = List.filter (fun a => rank (key a) =? k) l.
Proof.
  induction l as [|x l IH]; [reflexivity|].
  cbn [sort_reverse fold_right]. rewrite insert_desc_stable.
  cbn [List.filter]. unfold sort_reverse in IH. rewrite IH. reflexivity.
Qed.
(** A descending list is determined by its elements of each rank, in
    their order: the result of a stable descending sort does not depend on
    the algorithm. *)
Lemma desc_sorted_unique (a b : list A) :
  StronglySorted desc a -> StronglySorted desc b ->
  (forall k, List.filter (fun z => rank (key z) =? k) a
             = List.filter (fun z => rank (key z) =? k) b) ->
  a = b.
Proof.
  intros Ha. revert b. induction Ha as [|x a' Sa IH Hx]; intros b Hb H.
  - destruct b as [|y b']; [reflexivity|].
    specialize (H (rank (key y))). cbn [List.filter] in H.
    rewrite Z.eqb_refl in H. discriminate.
  - destruct b as [|y b'].
    { specialize (H (rank (key x))). cbn [List.filter] in H.
      rewrite Z.eqb_refl in H. discriminate. }
    inversion Hb as [|y' b'' Sb Hy]; subst.
    rewrite List.Forall_forall in Hx, Hy.
    assert (Hyx : rank (key y) <= rank (key x)).
    { assert (Hin : In y (x :: a')).
      { eapply (proj1 (filter_In _ _ _)). rewrite (H (rank (key y))).
        apply filter_In. split; [left; reflexivity | apply Z.eqb_refl]. }
      destruct Hin as [<-|Hin]; [lia | apply Hx; exact Hin]. }
    assert (Hxy : rank (key x) <= rank (key y)).
    { assert (Hin : In x (y :: b')).
      { eapply (proj1 (filter_In _ _ _)). rewrite <- (H (rank (key x))).
        apply filter_In. split; [left; reflexivity | apply Z.eqb_refl]. }
      destruct Hin as [<-|Hin]; [lia | apply Hy; exact Hin]. }
    assert (Hr : rank (key y) = rank (key x)) by lia.
    assert (Hhd : x = y).
    { specialize (H (rank (key x))). cbn [List.filter] in H.
      rewrite Hr, Z.eqb_refl in H. congruence. }
    subst y. f_equal. apply IH; [exact Sb|].
    intros k. specialize (H k). cbn [List.filter] in H.
    destruct (rank (key x) =? k); congruence.
Qed.

Lemma sort_reverse_unique (l out : list A) :
  StronglySorted desc out ->
  (forall k, List.filter (fun z => rank (key z) =? k) out
             = List.filter (fun z => rank (key z) =? k) l) ->
  out = sort_reverse key lt l.
Proof.
  intros Hs Hf. apply desc_sorted_unique; [exact Hs | apply sort_reverse_sorted |].
  intros k. rewrite Hf, sort_reverse_stable. reflexivity.
Qed.
End SortFacts.


(** ** The collection loops *)

Section AdapterFacts.
Variable run_git_log : str -> result str.
Variable fromisoformat : str -> option datetime.

Local Abbreviation query := (get_latest_commit run_git_log fromisoformat).
Local Abbreviation caught := (caught run_git_log fromisoformat).
Local Abbreviation build := (build_branch_info run_git_log fromisoformat).
Local Abbreviation collect := (collect_infos run_git_log fromisoformat).

Lemma build_branch_info_error (k ref display : str) (e : exn) :
  build k ref display = inl e <-> query ref = inl e.
Proof.
  unfold build_branch_info. destruct (query ref) as [e'|[[[h c] d] s]]; simpl.
  - split; intros H; inversion H; reflexivity.
  - split; discriminate.
Qed.

Lemma collect_infos_caught (k : str) (refs : list (str * str)) (infos : list BranchInfo) :
  Forall caught refs ->
  collect k refs infos = inr (infos ++ successful_infos run_git_log fromisoformat k refs).
Proof.
  intros H. revert infos. induction H as [|[full short] rest Hc _ IH]; intros infos; simpl.
  - rewrite app_nil_r. reflexivity.
  - destruct (build k full short) as [e|b] eqn:E.
    + apply build_branch_info_error in E. destruct (Hc e E) as (msg & ->). apply IH.
    + rewrite IH, <- app_assoc. reflexivity.
Qed.

Lemma collect_infos_escape (k : str) (pre post : list (str * str))
    (full short : str) (infos : list BranchInfo) :
  Forall caught pre ->
  query full = inl ValueError ->
  collect k (pre ++ (full, short) :: post) infos = inl ValueError.
Proof.
  intros H Hq. revert infos. induction H as [|[f s] rest Hc _ IH]; intros infos; simpl.
  - apply (build_branch_info_error k full short) in Hq. rewrite Hq. reflexivity.
  - destruct (build k f s) as [e|b] eqn:E.
    + apply build_branch_info_error in E. destruct (Hc e E) as (msg & ->). apply IH.
    + apply IH.
Qed.

End AdapterFacts.

(* ===================================================================== *)
(** * The claims of the specification *)
(* ===================================================================== *)

(** ** The wrapper *)



(** C2, as the code has it: a line is at most as wide as the width, or it
    is the right-trimmed form of an accumulator that the loop does not
    split: a bare prefix, the continuation prefix with one left-trimmed
    token, or an accumulator not wider than the first prefix with one more
    token. *)
Theorem wrap_pieces_line_width (pieces : list str) (width : Z)
    (first_prefix next_prefix : str) (l : str) :
  In l (wrap_pieces pieces width first_prefix next_prefix) ->
  strip_ansi_len l <= width
  \/ exists c, unsplit_acc first_prefix next_prefix pieces c /\ l = rstrip c.
Proof.
  unfold wrap_pieces.
  destruct (wrap_loop_width width first_prefix next_prefix pieces pieces
              (WrapState [] first_prefix)) as [Hc Hl].
  - apply incl_refl.
  - right. left. reflexivity.
  - constructor.
  - set (st := wrap_loop width first_prefix next_prefix pieces _) in *.
    assert (Hlast : strip_ansi_len (rstrip (cur st)) <= width
                    \/ exists c, unsplit_acc first_prefix next_prefix pieces c
                                 /\ rstrip (cur st) = rstrip c).
    { apply (acc_ok_line_ok width first_prefix next_prefix pieces). exact Hc. }
    rewrite List.Forall_forall in Hl.
    destruct (truthy (strip (cur st))); intros Hin.
    + apply in_app_or in Hin. destruct Hin as [Hin|[<-|[]]]; [apply Hl; exact Hin | exact Hlast].
    + apply Hl. exact Hin.
Qed.

Lemma wrap_pieces_line_width_witness :
  In (str_of "    BBBB")
     (wrap_pieces [str_of "AAAAAA"; str_of "BBBB"] 6 [] (str_of "    "))
  /\ (strip_ansi_len (str_of "    BBBB") <= 6
      \/ exists c,
           unsplit_acc [] (str_of "    ") [str_of "AAAAAA"; str_of "BBBB"] c
           /\ str_of "    BBBB" = rstrip c).
Proof.
  split.
  - vm_compute. auto.
  - apply (wrap_pieces_line_width [str_of "AAAAAA"; str_of "BBBB"] 6 []
             (str_of "    ") (str_of "    BBBB")).
    vm_compute. auto.
Defined.

(** C2 as stated fails: the continuation prefix counts.  No token is
    wider than the width 6, yet the second line is 8 wide. *)
Lemma wrap_pieces_prefix_overflows :
  wrap_pieces [str_of "AAAAAA"; str_of "BBBB"] 6 [] (str_of "    ")
  = [str_of "AAAAAA"; str_of "    BBBB"]
  /\ 6 < strip_ansi_len (str_of "    BBBB")
  /\ Forall (fun t => strip_ansi_len t <= 6) [str_of "AAAAAA"; str_of "BBBB"].
Proof.
  split; [vm_compute; reflexivity|]. split; [vm_compute; reflexivity|].
  repeat constructor; vm_compute; discriminate.
Qed.

(** C3, as the code has it: a non-empty token is appended to the
    accumulator exactly when the candidate is within the width or the
    accumulator is not wider than the first prefix; and a token that is
    not blank shows, with the whitespace at its ends trimmed, in some line
    of the result, whatever its width. *)
Theorem wrap_step_accepts_and_places (pieces : list str) (width : Z)
    (first_prefix next_prefix : str) (st : wrap_state) (piece t : str) :
  truthy piece = true ->
  In t pieces -> ~ blank t ->
  (wrap_step width first_prefix next_prefix st piece
     = WrapState (lines st) (cur st ++ piece)
   <-> (strip_ansi_len (cur st ++ piece) <= width
        \/ strip_ansi_len (cur st) <= strip_ansi_len first_prefix))
  /\ exists line a b,
       In line (wrap_pieces pieces width first_prefix next_prefix)
       /\ line = a ++ strip t ++ b.
Proof.
  intros Hp Hin Ht. split.
  - apply wrap_step_accepts. exact Hp.
  - apply wrap_pieces_places; assumption.
Qed.

Lemma wrap_step_accepts_and_places_witness :
  truthy (str_of "BBBB") = true
  /\ In (str_of " BBBB ") [str_of "AAAA"; str_of " BBBB "]
  /\ ~ blank (str_of " BBBB ")
  /\ exists line a b,
       In line (wrap_pieces [str_of "AAAA"; str_of " BBBB "] 3 [] (str_of "    "))
       /\ line = a ++ strip (str_of " BBBB ") ++ b.
Proof.
  assert (Hnb : ~ blank (str_of " BBBB ")).
  { apply strip_truthy_iff. vm_compute. reflexivity. }
  split; [reflexivity|]. split; [vm_compute; auto|]. split; [exact Hnb|].
  apply (wrap_step_accepts_and_places [str_of "AAAA"; str_of " BBBB "] 3 []
           (str_of "    ") (WrapState [] []) (str_of "BBBB") (str_of " BBBB ")).
  - reflexivity.
  - vm_compute. auto.
  - exact Hnb.
Defined.

(** C3 as stated fails twice.  After [AAAA] and [BBBB] at width 3 the
    accumulator is the continuation prefix and nothing else, and [CCCC] is
    not appended to it; and the only token of [["  "]] is on no line. *)
Lemma wrap_step_rejects_on_bare_prefix :
  (let st := wrap_loop 3 [] (str_of "    ") [str_of "AAAA"; str_of "BBBB"]
               (WrapState [] []) in
   cur st = str_of "    "
   /\ wrap_step 3 [] (str_of "    ") st (str_of "CCCC")
      <> WrapState (lines st) (cur st ++ str_of "CCCC"))
  /\ wrap_pieces [str_of "  "] 10 [] [] = [].
Proof.
  split; [|vm_compute; reflexivity].
  cbv zeta. split; [vm_compute; reflexivity|].
  vm_compute. discriminate.
Qed.

(** C4, as the code has it.  The function is total: the loop is a fold
    over the list of tokens.  With a width of zero or less, no two tokens
    share a line, that is, every accumulator of the layout holds at most
    one token, under these conditions: no prefix and no token ends inside
    an unfinished styling sequence (its visible length adds up with that
    of any text behind it); the first prefix is not visibly wider than the
    continuation prefix; the first non-empty token has a visible
    character; and either the continuation prefix is visibly wider than
    the first one, or every non-empty token has a visible character and,
    left-trimmed behind the continuation prefix, is wider than the width.
    Styled tokens and blank separators are covered.  With the default
    empty prefixes and tokens without leading whitespace, the lines are
    the non-empty tokens, right-trimmed. *)
Theorem wrap_pieces_nonpositive_width (pieces : list str) (width : Z)
    (first_prefix next_prefix : str) :
  width <= 0 ->
  additive first_prefix -> additive next_prefix -> Forall additive pieces ->
  strip_ansi_len first_prefix <= strip_ansi_len next_prefix ->
  (forall t, hd_error (List.filter truthy pieces) = Some t -> 0 < strip_ansi_len t) ->
  (strip_ansi_len first_prefix < strip_ansi_len next_prefix
   \/ Forall (fun t => t = []
                \/ (0 < strip_ansi_len t
                    /\ width < strip_ansi_len next_prefix
                               + strip_ansi_len (lstrip t))) pieces) ->
  (exists (gs : list group) (last : group),
      concat (map g_toks (gs ++ [last])) = List.filter truthy pieces
      /\ map g_prefix (gs ++ [last])
         = first_prefix :: repeat next_prefix (length gs)
      /\ wrap_pieces pieces width first_prefix next_prefix
         = map group_line gs
           ++ (if truthy (strip (group_acc last)) then [group_line last] else [])
      /\ Forall (fun g => (length (g_toks g) <= 1)%nat) (gs ++ [last]))
  /\ (first_prefix = [] -> next_prefix = [] ->
      Forall (fun t => lstrip t = t) pieces ->
      wrap_pieces pieces width first_prefix next_prefix
      = map rstrip (List.filter truthy pieces)).
Proof.
  intros Hw Hfp Hnp Hadd Hlen Hfirst Hrest. split.
  - exists (closed (wrap_trace pieces width first_prefix next_prefix)),
           (open (wrap_trace pieces width first_prefix next_prefix)).
    destruct (wrap_trace_layout pieces width first_prefix next_prefix)
      as (Htoks & Hpre & _ & Hres).
    repeat split; try assumption.
    apply (trace_loop_single_start width first_prefix next_prefix);
      try assumption.
    + apply List.Forall_forall. intros t Ht. split.
      * exact (proj1 (List.Forall_forall _ _) Hadd t Ht).
      * destruct Hrest as [Hlt | Hall]; [left; exact Hlt | right].
        destruct (proj1 (List.Forall_forall _ _) Hall t Ht) as [-> | H];
          [left; reflexivity | right; exact H].
    + destruct (List.filter truthy pieces) as [|t ts]; [exact I|].
      apply Hfirst. reflexivity.
  - intros -> -> Hls. apply wrap_pieces_nonpositive; [exact Hw|].
    destruct Hrest as [Hlt | Hall]; [cbv in Hlt; discriminate Hlt|].
    apply List.Forall_forall. intros t Ht.
    destruct (proj1 (List.Forall_forall _ _) Hall t Ht) as [-> | [Hv _]];
      [left; reflexivity | right].
    repeat split.
    + exact (proj1 (List.Forall_forall _ _) Hadd t Ht).
    + exact Hv.
    + exact (proj1 (List.Forall_forall _ _) Hls t Ht).
Qed.

Lemma wrap_pieces_nonpositive_width_witness :
  (let pieces := record_pieces demo_colored demo_isoformat (str_of "readable")
                   demo_info in
   0 <= 0
   /\ additive (str_of "  ") /\ additive (str_of "    ")
   /\ Forall additive pieces
   /\ strip_ansi_len (str_of "  ") < strip_ansi_len (str_of "    ")
   /\ (forall t, hd_error (List.filter truthy pieces) = Some t
                 -> 0 < strip_ansi_len t)
   /\ exists (gs : list group) (last : group),
        concat (map g_toks (gs ++ [last])) = List.filter truthy pieces
        /\ map g_prefix (gs ++ [last])
           = str_of "  " :: repeat (str_of "    ") (length gs)
        /\ wrap_pieces pieces 0 (str_of "  ") (str_of "    ")
           = map group_line gs
             ++ (if truthy (strip (group_acc last)) then [group_line last]
                 else [])
        /\ Forall (fun g => (length (g_toks g) <= 1)%nat) (gs ++ [last]))
  /\ (let pieces := [demo_colored (str_of "main") (str_of "green") [str_of "bold"];
                     [];
                     demo_colored (str_of "0123abcd") (str_of "yellow") []] in
      -5 <= 0
      /\ Forall additive pieces
      /\ Forall (fun t => t = []
                   \/ (0 < strip_ansi_len t
                       /\ -5 < strip_ansi_len [] + strip_ansi_len (lstrip t)))
           pieces
      /\ Forall (fun t => lstrip t = t) pieces
      /\ wrap_pieces pieces (-5) [] []
         = [demo_colored (str_of "main") (str_of "green") [str_of "bold"];
            demo_colored (str_of "0123abcd") (str_of "yellow") []]).
Proof.
  assert (Hplain : forall s : str, forallb (fun c => negb (c =? 27)%N) s = true -> plain s).
  { intros s H. apply List.Forall_forall. intros c Hc Heq.
    rewrite forallb_forall in H. specialize (H c Hc). subst c. discriminate H. }
  split; cbv zeta.
  - assert (Hw : 0 <= 0) by lia.
    assert (Hfp : additive (str_of "  "))
      by (apply additive_plain, Hplain; reflexivity).
    assert (Hnp : additive (str_of "    "))
      by (apply additive_plain, Hplain; reflexivity).
    assert (Hadd : Forall additive
                     (record_pieces demo_colored demo_isoformat
                        (str_of "readable") demo_info)).
    { unfold record_pieces.
      repeat (apply List.Forall_cons;
              [first [ apply additive_demo_colored, Hplain; vm_compute; reflexivity
                     | apply additive_plain, Hplain; reflexivity ] |]).
      apply List.Forall_nil. }
    assert (Hlt : strip_ansi_len (str_of "  ") < strip_ansi_len (str_of "    "))
      by (vm_compute; reflexivity).
    assert (Hfirst : forall t,
               hd_error (List.filter truthy
                           (record_pieces demo_colored demo_isoformat
                              (str_of "readable") demo_info)) = Some t
               -> 0 < strip_ansi_len t).
    { intros t Ht. vm_compute in Ht. inversion Ht. vm_compute. reflexivity. }
    repeat (split; [assumption|]).
    apply (wrap_pieces_nonpositive_width
             (record_pieces demo_colored demo_isoformat (str_of "readable") demo_info)
             0 (str_of "  ") (str_of "    ") Hw Hfp Hnp Hadd (Z.lt_le_incl _ _ Hlt)
             Hfirst (or_introl Hlt)).
  - set (branch := demo_colored (str_of "main") (str_of "green") [str_of "bold"]).
    set (chash := demo_colored (str_of "0123abcd") (str_of "yellow") []).
    assert (Hw : -5 <= 0) by lia.
    assert (Hadd : Forall additive [branch; []; chash]).
    { repeat (apply List.Forall_cons;
              [first [ apply additive_demo_colored, Hplain; reflexivity
                     | apply additive_nil ] |]).
      apply List.Forall_nil. }
    assert (Hvis : Forall (fun t => t = []
                             \/ (0 < strip_ansi_len t
                                 /\ -5 < strip_ansi_len []
                                         + strip_ansi_len (lstrip t)))
                     [branch; []; chash]).
    { repeat (apply List.Forall_cons;
              [first [ left; reflexivity
                     | right; split; vm_compute; reflexivity ] |]).
      apply List.Forall_nil. }
    assert (Hls : Forall (fun t => lstrip t = t) [branch; []; chash]).
    { repeat (apply List.Forall_cons; [reflexivity|]). apply List.Forall_nil. }
    assert (Hfirst : forall t,
               hd_error (List.filter truthy [branch; []; chash]) = Some t
               -> 0 < strip_ansi_len t).
    { intros t Ht. vm_compute in Ht. inversion Ht. vm_compute. reflexivity. }
    repeat (split; [assumption|]).
    rewrite (proj2 (wrap_pieces_nonpositive_width [branch; []; chash] (-5) [] []
                      Hw additive_nil additive_nil Hadd (Z.le_refl _) Hfirst
                      (or_intror Hvis)) eq_refl eq_refl Hls).
    vm_compute. reflexivity.
Defined.

(** C4 as stated fails, in the ways the hypotheses exclude.  At width 0 a
    token that is a styling sequence and nothing else leaves the
    accumulator as wide as the first prefix, and the next token joins its
    line, with empty prefixes and with those of the report; with a first
    prefix wider than the continuation prefix whole runs of tokens share
    a line; behind the first token, a blank token or a styling sequence
    opens a line that is no wider than the width and takes the next token;
    and two tokens, or a prefix and a token, that make up a styling
    sequence together count for less than their sum. *)
Lemma wrap_pieces_zero_width_shares_line :
  wrap_pieces [27%N :: str_of "[1m"; str_of "A"] 0 [] []
  = [27%N :: str_of "[1mA"]
  /\ wrap_pieces [str_of "A"; str_of "B"; str_of "C"; str_of "D"; str_of "E"]
       0 (str_of "  ") []
     = [str_of "  A"; str_of "B"; str_of "CDE"]
  /\ wrap_pieces [27%N :: str_of "[1m"; str_of "A"] 0 (str_of "  ") (str_of "    ")
     = [str_of "  " ++ 27%N :: str_of "[1mA"]
  /\ wrap_pieces [str_of "A"; str_of " "; str_of "B"] 0 [] []
     = [str_of "A"; str_of "B"]
  /\ wrap_pieces [str_of "A"; 27%N :: str_of "[1m"; str_of "B"] 0 [] []
     = [str_of "A"; 27%N :: str_of "[1mB"]
  /\ wrap_pieces [27%N :: str_of "["; str_of "m"] 0 [] []
     = [27%N :: str_of "[m"]
  /\ wrap_pieces [str_of "A"; str_of "m"; str_of "B"] 0 [] (27%N :: str_of "[")
     = [str_of "A"; 27%N :: str_of "[mB"]
  /\ wrap_pieces [str_of "mA"; str_of "mB"] 0 (27%N :: str_of "[")
       (27%N :: str_of "[")
     = [27%N :: str_of "[mAmB"].
Proof. repeat split; vm_compute; reflexivity. Qed.

(** C9: the three tokens fit the width of 10 exactly and give one line,
    whatever the continuation prefix. *)
Theorem wrap_pieces_three_tokens_fit (next_prefix : str) :
  wrap_pieces [str_of "AAA"; str_of "  "; str_of "BBB"] 10 (str_of "  ")
    next_prefix
  = [str_of "  AAA  BBB"].
Proof. vm_compute. reflexivity. Qed.

(** C10: when all tokens are empty the result is the right-trimmed first
    prefix if it is not blank, and no line otherwise; and a last
    accumulator that is blank gives no line. *)
Theorem wrap_pieces_empty_tokens (pieces : list str) (width : Z)
    (first_prefix next_prefix : str) :
  Forall (fun p => p = []) pieces ->
  (~ blank first_prefix ->
   wrap_pieces pieces width first_prefix next_prefix = [rstrip first_prefix])
  /\ (blank first_prefix ->
      wrap_pieces pieces width first_prefix next_prefix = [])
  /\ forall ps,
       blank (cur (wrap_loop width first_prefix next_prefix ps
                     (WrapState [] first_prefix))) ->
       wrap_pieces ps width first_prefix next_prefix
       = lines (wrap_loop width first_prefix next_prefix ps
                  (WrapState [] first_prefix)).
Proof.
  intros Hall.
  assert (E : wrap_pieces pieces width first_prefix next_prefix
              = if truthy (strip first_prefix) then [rstrip first_prefix] else []).
  { unfold wrap_pieces. rewrite wrap_loop_all_empty by assumption. reflexivity. }
  split; [|split].
  - intros Hnb. apply strip_truthy_iff in Hnb. rewrite E, Hnb. reflexivity.
  - intros Hb. rewrite E. unfold strip. rewrite (rstrip_blank _ Hb). reflexivity.
  - intros ps Hb. unfold wrap_pieces, strip. rewrite (rstrip_blank _ Hb). reflexivity.
Qed.

Lemma wrap_pieces_empty_tokens_witness :
  Forall (fun p : str => p = []) [[]; []]
  /\ wrap_pieces [[]; []] 10 (str_of "  x ") (str_of "    ") = [str_of "  x"]
  /\ wrap_pieces [[]; []] 10 (str_of "  ") (str_of "    ") = [].
Proof.
  assert (Hall : Forall (fun p : str => p = []) [[]; []]) by (repeat constructor).
  split; [exact Hall|]. split.
  - apply (wrap_pieces_empty_tokens [[]; []] 10 (str_of "  x ") (str_of "    ") Hall).
    apply strip_truthy_iff. vm_compute. reflexivity.
  - apply (wrap_pieces_empty_tokens [[]; []] 10 (str_of "  ") (str_of "    ") Hall).
    repeat constructor.
Defined.

(** ** The classifier *)

(** C5: the result is the list of local names, in their order, that are
    not the leaf of a remote name, the leaf being what follows the first
    ["/"]; the two examples of the specification. *)
Theorem classifier_local_only (locals remotes : list str) :
  local_branches_not_on_any_remote locals remotes
  = List.filter
      (fun l => negb (bool_decide (Some l ∈ map after_first_slash remotes)))
      locals
  /\ (forall r l,
        after_first_slash r = Some l
        <-> exists a, ~ In 47%N a /\ r = a ++ 47%N :: l)
  /\ (forall l,
        In l (local_branches_not_on_any_remote locals remotes)
        <-> In l locals
            /\ ~ exists r a, In r remotes /\ ~ In 47%N a /\ r = a ++ 47%N :: l)
  /\ local_branches_not_on_any_remote
       [str_of "main"; str_of "dev"; str_of "experiment"]
       [str_of "origin/main"; str_of "origin/dev"; str_of "upstream/main"]
     = [str_of "experiment"]
  /\ local_branches_not_on_any_remote locals [] = locals.
Proof.
  split; [|split; [|split; [|split]]].
  - unfold local_branches_not_on_any_remote. apply filter_ext. intros l.
    f_equal. apply bool_decide_ext.
    rewrite elem_of_remote_leaf_names, list_elem_of_In. reflexivity.
  - apply after_first_slash_spec.
  - intros l. rewrite local_only_In.
    split; intros [Hl Hn]; split; try assumption.
    + intros (r & a & Hr & Ha & E). apply Hn. apply in_map_iff.
      exists r. split; [|assumption]. apply after_first_slash_spec. eauto.
    + intros Hin. apply Hn. apply in_map_iff in Hin. destruct Hin as (r & E & Hr).
      apply after_first_slash_spec in E. destruct E as (a & Ha & E). eauto.
  - vm_compute. reflexivity.
  - unfold local_branches_not_on_any_remote. simpl.
    induction locals as [|l ls IH]; simpl; [reflexivity|].
    rewrite bool_decide_eq_false_2 by apply not_elem_of_empty. simpl. f_equal. exact IH.
Qed.

(** ** The date formatter *)

(** C6: the readable format is the month, the day with the ordinal suffix
    of the rule, the year, the time on the 12-hour clock and the timezone
    of the specification: [GMT] with the signed hours of the offset,
    truncated toward zero, or bare [GMT] without an offset; and the
    example of the specification. *)
Theorem format_date_readable :
  (forall dt,
      format_date dt
      = capitalize (month_abbr (month dt)) ++ str_of ". "
        ++ format_int (day dt) ++ ordinal_suffix_spec (day dt) ++ str_of ", "
        ++ format_int (year dt) ++ str_of ", "
        ++ strftime_IMSp dt ++ str_of ", " ++ timezone_spec dt)
  /\ (forall off, offset_hours off
                  = truncate_toward_zero (total_microseconds off) 3600000000)
  /\ format_date (Datetime 2024 1 1 13 5 9 0 (Some (Timedelta 0 0 0)))
     = str_of "Jan. 1st, 2024, 01:05:09 PM, GMT+0".
Proof.
  split; [|split].
  - intros dt. unfold format_date. cbv zeta.
    rewrite ordinal_spec_eq, tz_str_spec. rewrite <- !app_assoc. reflexivity.
  - apply offset_hours_truncates.
  - vm_compute. reflexivity.
Qed.

(** ** The renderer *)


(** The query failures that [main] catches do what C8 says: the refs are
    left out, and the records of the others are collected in order. *)
Lemma main_infos_caught (run_git_log : str -> result str)
    (fromisoformat : str -> option datetime)
    (remote_refs local_refs : list (str * str)) :
  Forall (caught run_git_log fromisoformat) remote_refs ->
  Forall (caught run_git_log fromisoformat) local_refs ->
  exists local_only_refs,
    main_infos run_git_log fromisoformat remote_refs local_refs
    = inr (sort_infos (successful_infos run_git_log fromisoformat
                         (str_of "remote") remote_refs),
           sort_infos (successful_infos run_git_log fromisoformat
                         (str_of "local") local_only_refs)).
Proof.
  intros Hr Hl. unfold main_infos.
  rewrite (collect_infos_caught _ _ _ remote_refs []) by assumption.
  cbn [mbind result_bind app].
  eexists. rewrite (collect_infos_caught _ _ _ _ []).
  - reflexivity.
  - rewrite List.Forall_forall in *. intros r Hin. apply Hl.
    apply filter_In in Hin. tauto.
Qed.

(** A date that [datetime.fromisoformat] rejects makes the query raise
    [ValueError]. *)
Lemma get_latest_commit_bad_date (run_git_log : str -> result str)
    (fromisoformat : str -> option datetime) (ref out : str) :
  run_git_log ref = inr out ->
  length (split_on 0 (rstrip_newlines out)) = 4%nat ->
  fromisoformat (field 2 (split_on 0 (rstrip_newlines out))) = None ->
  get_latest_commit run_git_log fromisoformat ref = inl ValueError.
Proof.
  intros Hrun Hlen Hdate. unfold get_latest_commit.
  rewrite Hrun. cbn [mbind result_bind].
  rewrite Hlen. cbn [Nat.eqb negb]. rewrite Hdate. reflexivity.
Qed.

(** C8 fails on the code: a query that raises [ValueError], as it does for
    a tip commit whose date [datetime.fromisoformat] rejects, is not
    caught by the loop; the run ends there, without the records of the
    refs whose query succeeded. *)
Theorem main_infos_value_error_aborts (run_git_log : str -> result str)
    (fromisoformat : str -> option datetime)
    (pre post local_refs : list (str * str)) (full short : str) :
  Forall (caught run_git_log fromisoformat) pre ->
  get_latest_commit run_git_log fromisoformat full = inl ValueError ->
  main_infos run_git_log fromisoformat (pre ++ (full, short) :: post) local_refs
  = inl ValueError.
Proof.
  intros Hpre Hq. unfold main_infos.
  rewrite (collect_infos_escape _ _ _ pre post full short []); [reflexivity | assumption |].
  exact Hq.
Qed.

Lemma main_infos_value_error_aborts_witness :
  Forall (caught demo_log demo_fromisoformat) (firstn 2 demo_remote_refs)
  /\ get_latest_commit demo_log demo_fromisoformat
       (str_of "refs/remotes/origin/dev") = inl ValueError
  /\ main_infos demo_log demo_fromisoformat demo_remote_refs [] = inl ValueError.
Proof.
  assert (Hpre : Forall (caught demo_log demo_fromisoformat)
                   (firstn 2 demo_remote_refs)).
  { repeat constructor; intros e; vm_compute; intros H; inversion H; eauto. }
  assert (Hq : get_latest_commit demo_log demo_fromisoformat
                 (str_of "refs/remotes/origin/dev") = inl ValueError).
  { vm_compute. reflexivity. }
  split; [exact Hpre|]. split; [exact Hq|].
  apply (main_infos_value_error_aborts demo_log demo_fromisoformat
           (firstn 2 demo_remote_refs) [] []
           (str_of "refs/remotes/origin/dev") (str_of "origin/dev") Hpre Hq).
Defined.

(* ===================================================================== *)
(** * Further properties of the code *)
(* ===================================================================== *)

(** ** The visible length *)

Lemma ansi_sub_length (s : str) : (length (ansi_sub s) <= length s)%nat.
Proof.
  remember (length s) as n eqn:Hn. revert s Hn.
  induction n as [n IH] using lt_wf_ind. intros s Hn.
  destruct s as [|c t]; [simp ansi_sub; simpl; lia|].
  rewrite ansi_sub_cons. destruct (match_ansi (c :: t)) as [r|] eqn:E.
  - apply match_ansi_shorter in E.
    pose proof (IH (length r) ltac:(lia) r eq_refl). lia.
  - simpl in *. pose proof (IH (length t) ltac:(lia) t eq_refl). lia.
Qed.

(** X1: the visible length is never negative and never more than the
    number of characters. *)
Theorem strip_ansi_len_bounds (s : str) :
  0 <= strip_ansi_len s <= Z.of_nat (length s).
Proof.
  unfold strip_ansi_len. pose proof (ansi_sub_length s). lia.
Qed.

(** X2: a styling sequence, the escape character, a bracket, any run of
    digits and semicolons and the letter [m], takes no room: what follows
    it is counted as if the sequence were not there. *)
Theorem strip_ansi_len_sequence (ps rest : str) :
  Forall (fun c => is_param c = true) ps ->
  strip_ansi_len (27%N :: 91%N :: ps ++ 109%N :: rest) = strip_ansi_len rest.
Proof.
  intros Hps. unfold strip_ansi_len. rewrite ansi_sub_cons.
  change (match_ansi (27%N :: 91%N :: ps ++ 109%N :: rest))
    with (match skip_params (ps ++ 109%N :: rest) with
          | 109%N :: r => Some r
          | _ => None
          end).
  rewrite skip_params_run by assumption. reflexivity.
Qed.

Lemma strip_ansi_len_sequence_witness :
  Forall (fun c => is_param c = true) (str_of "1;32")
  /\ strip_ansi_len (27%N :: 91%N :: str_of "1;32" ++ 109%N :: str_of "main")
     = strip_ansi_len (str_of "main").
Proof.
  assert (H : Forall (fun c => is_param c = true) (str_of "1;32"))
    by (repeat constructor).
  split; [exact H|].
  apply (strip_ansi_len_sequence (str_of "1;32") (str_of "main") H).
Defined.

(** X3: text without escape character counts in full, whatever follows
    it: an indentation is never swallowed by the styling of a token. *)
Theorem strip_ansi_len_plain_prefix (a b : str) :
  plain a ->
  strip_ansi_len (a ++ b) = Z.of_nat (length a) + strip_ansi_len b.
Proof.
  intros Ha. unfold strip_ansi_len.
  rewrite ansi_sub_plain_app by assumption. rewrite length_app. lia.
Qed.

Lemma strip_ansi_len_plain_prefix_witness :
  plain (str_of "    ")
  /\ strip_ansi_len (str_of "    " ++ 27%N :: str_of "[32mmain")
     = Z.of_nat (length (str_of "    "))
       + strip_ansi_len (27%N :: str_of "[32mmain").
Proof.
  assert (H : plain (str_of "    ")) by (repeat constructor; vm_compute; discriminate).
  split; [exact H|].
  apply (strip_ansi_len_plain_prefix (str_of "    ") (27%N :: str_of "[32mmain") H).
Defined.

Lemma skip_params_suffix (u : str) (c : N) (r : str) :
  skip_params u = c :: r -> In c u.
Proof.
  induction u as [|d u IH]; simpl; [discriminate|].
  destruct (is_param d).
  - intros H. right. apply IH. exact H.
  - intros H. inversion H. left. reflexivity.
Qed.

Lemma match_ansi_chars (s r : str) :
  match_ansi s = Some r -> In 27%N s /\ In 91%N s /\ In 109%N s.
Proof.
  unfold match_ansi. intros H.
  destruct s as [|[|p] s]; try discriminate.
  repeat (destruct p as [p|p|]; try discriminate).
  destruct s as [|[|q] u]; try discriminate.
  repeat (destruct q as [q|q|]; try discriminate).
  destruct (skip_params u) as [|[|q] r'] eqn:E; try discriminate.
  repeat (destruct q as [q|q|]; try discriminate).
  apply skip_params_suffix in E.
  split; [left; reflexivity|]. split; [right; left; reflexivity|].
  right. right. exact E.
Qed.

(** X4: nothing is removed from a string that lacks the escape character,
    the bracket or the letter [m]: an unfinished sequence stays visible. *)
Theorem ansi_sub_needs_sequence (s : str) :
  ~ In 27%N s \/ ~ In 91%N s \/ ~ In 109%N s ->
  ansi_sub s = s /\ strip_ansi_len s = Z.of_nat (length s).
Proof.
  intros H. assert (E : ansi_sub s = s).
  { induction s as [|c t IH]; [reflexivity|].
    rewrite ansi_sub_cons. destruct (match_ansi (c :: t)) as [r|] eqn:Em.
    - apply match_ansi_chars in Em. tauto.
    - f_equal. apply IH. simpl in H. tauto. }
  split; [exact E|]. unfold strip_ansi_len. rewrite E. reflexivity.
Qed.

Lemma ansi_sub_needs_sequence_witness :
  (~ In 27%N (27%N :: str_of "[31;1 red") \/ ~ In 91%N (27%N :: str_of "[31;1 red")
   \/ ~ In 109%N (27%N :: str_of "[31;1 red"))
  /\ strip_ansi_len (27%N :: str_of "[31;1 red") = 10.
Proof.
  assert (H : ~ In 27%N (27%N :: str_of "[31;1 red")
              \/ ~ In 91%N (27%N :: str_of "[31;1 red")
              \/ ~ In 109%N (27%N :: str_of "[31;1 red")).
  { right. right. vm_compute. intuition discriminate. }
  split; [exact H|].
  apply (ansi_sub_needs_sequence (27%N :: str_of "[31;1 red") H).
Defined.

(** ** The wrapper *)

(** X5: no returned line ends in whitespace. *)
Theorem wrap_pieces_lines_trimmed (pieces : list str) (width : Z)
    (first_prefix next_prefix : str) (l : str) :
  In l (wrap_pieces pieces width first_prefix next_prefix) ->
  rstrip l = l.
Proof.
  destruct (wrap_trace_layout pieces width first_prefix next_prefix)
    as (_ & _ & _ & ->).
  intros Hin. apply in_app_or in Hin. destruct Hin as [Hin|Hin].
  - apply in_map_iff in Hin. destruct Hin as (g & <- & _).
    unfold group_line. apply rstrip_idem.
  - destruct (truthy _); [|destruct Hin].
    destruct Hin as [<-|[]]. unfold group_line. apply rstrip_idem.
Qed.

Lemma wrap_pieces_lines_trimmed_witness :
  In (str_of "AAA") (wrap_pieces [str_of "AAA"; str_of "  "; str_of "BBB"] 5 [] [])
  /\ rstrip (str_of "AAA") = str_of "AAA".
Proof.
  assert (H : In (str_of "AAA")
                (wrap_pieces [str_of "AAA"; str_of "  "; str_of "BBB"] 5 [] []))
    by (vm_compute; auto).
  split; [exact H|].
  apply (wrap_pieces_lines_trimmed [str_of "AAA"; str_of "  "; str_of "BBB"] 5 [] []
           (str_of "AAA") H).
Defined.

(** X6: empty tokens change nothing: the result is that of the non-empty
    tokens alone. *)
Theorem wrap_pieces_skips_empty (pieces : list str) (width : Z)
    (first_prefix next_prefix : str) :
  wrap_pieces pieces width first_prefix next_prefix
  = wrap_pieces (List.filter truthy pieces) width first_prefix next_prefix.
Proof.
  unfold wrap_pieces.
  assert (E : forall st,
             wrap_loop width first_prefix next_prefix pieces st
             = wrap_loop width first_prefix next_prefix (List.filter truthy pieces) st).
  { induction pieces as [|p ps IH]; intros st; [reflexivity|].
    unfold wrap_loop in *. simpl. destruct p as [|c p']; simpl.
    - apply IH.
    - apply IH. }
  rewrite E. reflexivity.
Qed.

Lemma wrap_loop_fits (width : Z) (first_prefix next_prefix : str)
    (pieces : list str) (ls : list str) (c : str) :
  plain c -> Forall plain pieces ->
  Z.of_nat (length c + length (concat pieces)) <= width ->
  wrap_loop width first_prefix next_prefix pieces (WrapState ls c)
  = WrapState ls (c ++ concat pieces).
Proof.
  intros Hc Hps. revert c Hc. induction Hps as [|p ps Hp _ IH]; intros c Hc Hw.
  - simpl. rewrite app_nil_r. reflexivity.
  - unfold wrap_loop in *. simpl in *. rewrite length_app in Hw.
    assert (Hstep : wrap_step width first_prefix next_prefix (WrapState ls c) p
                    = WrapState ls (c ++ p)).
    { unfold wrap_step. destruct p as [|d p']; [simpl; rewrite app_nil_r; reflexivity|].
      cbn [truthy negb cur lines].
      rewrite (strip_ansi_len_plain (c ++ d :: p')) by (apply plain_app; assumption).
      assert (E : (Z.of_nat (length (c ++ d :: p')) <=? width) = true).
      { apply Z.leb_le. rewrite length_app. lia. }
      rewrite E. reflexivity. }
    rewrite Hstep, IH.
    + rewrite <- app_assoc. reflexivity.
    + apply plain_app; assumption.
    + rewrite length_app. lia.
Qed.

(** X7: when the first prefix and the tokens hold no escape character
    and fit the width together, the result is the one line of the prefix
    and all the tokens, right-trimmed, or no line if that is blank; the
    continuation prefix plays no part. *)
Theorem wrap_pieces_fits_one_line (pieces : list str) (width : Z)
    (first_prefix next_prefix : str) :
  plain first_prefix -> Forall plain pieces ->
  Z.of_nat (length first_prefix + length (concat pieces)) <= width ->
  wrap_pieces pieces width first_prefix next_prefix
  = if truthy (strip (first_prefix ++ concat pieces))
    then [rstrip (first_prefix ++ concat pieces)] else [].
Proof.
  intros Hfp Hps Hw. unfold wrap_pieces.
  rewrite wrap_loop_fits by assumption. reflexivity.
Qed.

Lemma wrap_pieces_fits_one_line_witness :
  plain (str_of "  ")
  /\ Forall plain [str_of "main"; str_of "  "; str_of "0123abcd"; str_of "  "]
  /\ Z.of_nat (length (str_of "  ")
               + length (concat [str_of "main"; str_of "  "; str_of "0123abcd";
                                 str_of "  "])) <= 20
  /\ wrap_pieces [str_of "main"; str_of "  "; str_of "0123abcd"; str_of "  "] 20
       (str_of "  ") (str_of "    ")
     = [str_of "  main  0123abcd"].
Proof.
  assert (Hfp : plain (str_of "  ")) by (repeat constructor; vm_compute; discriminate).
  assert (Hps : Forall plain [str_of "main"; str_of "  "; str_of "0123abcd"; str_of "  "])
    by (repeat constructor; vm_compute; discriminate).
  assert (Hw : Z.of_nat (length (str_of "  ")
               + length (concat [str_of "main"; str_of "  "; str_of "0123abcd";
                                 str_of "  "])) <= 20) by (vm_compute; discriminate).
  split; [exact Hfp|]. split; [exact Hps|]. split; [exact Hw|].
  apply (wrap_pieces_fits_one_line
           [str_of "main"; str_of "  "; str_of "0123abcd"; str_of "  "] 20
           (str_of "  ") (str_of "    ") Hfp Hps Hw).
Defined.

Lemma wrap_step_lines_grow (width : Z) (first_prefix next_prefix : str)
    (st : wrap_state) (piece : str) :
  (length (lines (wrap_step width first_prefix next_prefix st piece))
   <= length (lines st) + (if truthy piece then 2 else 0))%nat.
Proof.
  unfold wrap_step. destruct (truthy piece); simpl; [|lia].
  destruct (_ || _); simpl; [lia|].
  destruct (_ >? _); simpl; rewrite ?length_app; simpl; lia.
Qed.

(** X8: a token closes at most two lines, so that the result has at most
    twice as many lines as there are non-empty tokens, and one more. *)
Theorem wrap_pieces_line_count (pieces : list str) (width : Z)
    (first_prefix next_prefix : str) :
  (length (wrap_pieces pieces width first_prefix next_prefix)
   <= 2 * length (List.filter truthy pieces) + 1)%nat.
Proof.
  unfold wrap_pieces.
  assert (H : forall st,
             (length (lines (wrap_loop width first_prefix next_prefix pieces st))
              <= length (lines st) + 2 * length (List.filter truthy pieces))%nat).
  { induction pieces as [|p ps IH]; intros st; [simpl; lia|].
    unfold wrap_loop in *. simpl.
    specialize (IH (wrap_step width first_prefix next_prefix st p)).
    pose proof (wrap_step_lines_grow width first_prefix next_prefix st p) as Hs.
    destruct (truthy p); simpl in *; lia. }
  specialize (H (WrapState [] first_prefix)). simpl in H.
  destruct (truthy _); rewrite ?length_app; simpl; lia.
Qed.

(** ** The date formatter *)

(** X9: for the days of a month, the suffix is [st] for 1, 21 and 31,
    [nd] for 2 and 22, [rd] for 3 and 23, and [th] for all the others. *)
Theorem ordinal_days_of_month (d : Z) :
  1 <= d <= 31 ->
  ordinal d
  = if (d =? 1) || (d =? 21) || (d =? 31) then str_of "st"
    else if (d =? 2) || (d =? 22) then str_of "nd"
    else if (d =? 3) || (d =? 23) then str_of "rd"
    else str_of "th".
Proof.
  intros Hd.
  assert (Hn : d = Z.of_nat (Z.to_nat d)) by lia.
  assert (Hlt : (Z.to_nat d < 32)%nat) by lia.
  rewrite Hn. generalize dependent (Z.to_nat d). intros n _ Hlt.
  do 32 (destruct n as [|n]; [vm_compute; reflexivity|]). lia.
Qed.

Lemma ordinal_days_of_month_witness :
  1 <= 22 <= 31 /\ ordinal 22 = str_of "nd".
Proof.
  split; [lia|]. apply (ordinal_days_of_month 22). lia.
Defined.

(** X10: an offset of less than an hour, on either side of UTC, is
    rendered as [GMT+0]: the minutes are dropped, and with them the sign
    of a negative offset. *)
Theorem tz_str_below_one_hour (dt : datetime) (off : timedelta) :
  utcoffset dt = Some off ->
  -3600000000 < total_microseconds off < 3600000000 ->
  tz_str dt = str_of "GMT+0".
Proof.
  intros Hoff Hrange. unfold tz_str. rewrite Hoff.
  assert (E : offset_hours off = 0).
  { unfold offset_hours. apply Z.quot_small_iff; lia. }
  rewrite E. reflexivity.
Qed.

Lemma tz_str_below_one_hour_witness :
  utcoffset (Datetime 2024 1 1 13 5 9 0 (Some (Timedelta (-1) 84600 0)))
  = Some (Timedelta (-1) 84600 0)
  /\ -3600000000 < total_microseconds (Timedelta (-1) 84600 0) < 3600000000
  /\ tz_str (Datetime 2024 1 1 13 5 9 0 (Some (Timedelta (-1) 84600 0)))
     = str_of "GMT+0".
Proof.
  assert (H : -3600000000 < total_microseconds (Timedelta (-1) 84600 0) < 3600000000)
    by (vm_compute; split; reflexivity).
  split; [reflexivity|]. split; [exact H|].
  apply (tz_str_below_one_hour
           (Datetime 2024 1 1 13 5 9 0 (Some (Timedelta (-1) 84600 0)))
           (Timedelta (-1) 84600 0) eq_refl H).
Defined.




(** ** The classifier *)

(** X12: the remote names count as a set: their order and their
    repetitions do not change the result. *)
Theorem classifier_remote_set (locals remotes1 remotes2 : list str) :
  (forall r, In r remotes1 <-> In r remotes2) ->
  local_branches_not_on_any_remote locals remotes1
  = local_branches_not_on_any_remote locals remotes2.
Proof.
  intros H. unfold local_branches_not_on_any_remote. apply filter_ext. intros l.
  f_equal. apply bool_decide_ext. rewrite !elem_of_remote_leaf_names.
  rewrite !in_map_iff. split; intros (r & E & Hr); exists r; split; auto; apply H; auto.
Qed.

Lemma classifier_remote_set_witness :
  (forall r, In r [str_of "origin/dev"; str_of "origin/main"; str_of "origin/dev"]
             <-> In r [str_of "origin/main"; str_of "origin/dev"])
  /\ local_branches_not_on_any_remote [str_of "main"; str_of "x"]
       [str_of "origin/dev"; str_of "origin/main"; str_of "origin/dev"]
     = local_branches_not_on_any_remote [str_of "main"; str_of "x"]
         [str_of "origin/main"; str_of "origin/dev"].
Proof.
  assert (H : forall r, In r [str_of "origin/dev"; str_of "origin/main"; str_of "origin/dev"]
                        <-> In r [str_of "origin/main"; str_of "origin/dev"]).
  { intros r. simpl. tauto. }
  split; [exact H|].
  apply (classifier_remote_set [str_of "main"; str_of "x"]
           [str_of "origin/dev"; str_of "origin/main"; str_of "origin/dev"]
           [str_of "origin/main"; str_of "origin/dev"] H).
Defined.

Lemma after_first_slash_none (r : str) : ~ In 47%N r -> after_first_slash r = None.
Proof.
  induction r as [|c t IH]; simpl; [reflexivity|]. intros H.
  destruct (N.eqb_spec c 47) as [->|_]; [exfalso; apply H; left; reflexivity|].
  apply IH. tauto.
Qed.

(** X13: a remote name without ["/"], such as the bare name of a remote,
    excludes no local branch, not even the one of the same name. *)
Theorem classifier_ignores_bare_remotes (locals remotes : list str) :
  Forall (fun r => ~ In 47%N r) remotes ->
  local_branches_not_on_any_remote locals remotes = locals.
Proof.
  intros H.
  assert (Hno : forall l, ~ In (Some l) (map after_first_slash remotes)).
  { intros l Hin. apply in_map_iff in Hin. destruct Hin as (r & E & Hr).
    rewrite List.Forall_forall in H. rewrite (after_first_slash_none r (H r Hr)) in E.
    discriminate. }
  unfold local_branches_not_on_any_remote.
  induction locals as [|l ls IH]; simpl; [reflexivity|].
  rewrite bool_decide_eq_false_2; [simpl; f_equal; exact IH|].
  rewrite elem_of_remote_leaf_names. apply Hno.
Qed.

Lemma classifier_ignores_bare_remotes_witness :
  Forall (fun r => ~ In 47%N r) [str_of "origin"]
  /\ local_branches_not_on_any_remote [str_of "origin"; str_of "main"] [str_of "origin"]
     = [str_of "origin"; str_of "main"].
Proof.
  assert (H : Forall (fun r => ~ In 47%N r) [str_of "origin"]).
  { repeat constructor. vm_compute. intuition discriminate. }
  split; [exact H|].
  apply (classifier_ignores_bare_remotes [str_of "origin"; str_of "main"]
           [str_of "origin"] H).
Defined.

(** X14: a remote name is cut at its first ["/"] only, and what follows
    is the one local name it excludes: [origin/feature/foo] excludes the
    local branch [feature/foo], and not [foo]. *)
Theorem classifier_single_remote (locals : list str) (remote leaf : str) :
  ~ In 47%N remote ->
  local_branches_not_on_any_remote locals [remote ++ 47%N :: leaf]
  = List.filter (fun l => negb (bool_decide (l = leaf))) locals.
Proof.
  intros H. unfold local_branches_not_on_any_remote. apply filter_ext. intros l.
  f_equal. apply bool_decide_ext. rewrite elem_of_remote_leaf_names. simpl.
  assert (E : after_first_slash (remote ++ 47%N :: leaf) = Some leaf).
  { apply after_first_slash_spec. exists remote. auto. }
  rewrite E. split.
  - intros [Hl|[]]. congruence.
  - intros ->. left. reflexivity.
Qed.

Lemma classifier_single_remote_witness :
  ~ In 47%N (str_of "origin")
  /\ local_branches_not_on_any_remote [str_of "foo"; str_of "feature/foo"]
       [str_of "origin" ++ 47%N :: str_of "feature/foo"]
     = [str_of "foo"].
Proof.
  assert (H : ~ In 47%N (str_of "origin")) by (vm_compute; intuition discriminate).
  split; [exact H|].
  apply (classifier_single_remote [str_of "foo"; str_of "feature/foo"]
           (str_of "origin") (str_of "feature/foo") H).
Defined.

(** ** The enumeration of the branches *)

Lemma lstrip_idem (s : str) : lstrip (lstrip s) = lstrip s.
Proof.
  induction s as [|c t IH]; simpl; [reflexivity|].
  destruct (isspace c) eqn:E; [exact IH | simpl; rewrite E; reflexivity].
Qed.

Lemma strip_idem (s : str) : strip (strip s) = strip s.
Proof.
  unfold strip. rewrite (rstrip_lstrip (rstrip s)), rstrip_idem, lstrip_idem.
  reflexivity.
Qed.

Lemma stripped_lines_In (stdout s : str) :
  In s (stripped_lines stdout) -> s <> [] /\ strip s = s.
Proof.
  unfold stripped_lines. intros H. apply in_map_iff in H.
  destruct H as (line & <- & Hl). apply filter_In in Hl. destruct Hl as [_ Ht].
  split; [|apply strip_idem].
  intros E. rewrite E in Ht. discriminate.
Qed.

Lemma endswith_spec (s suffix : str) :
  endswith s suffix = true <-> exists p, s = p ++ suffix.
Proof.
  unfold endswith. rewrite bool_decide_eq_true. split.
  - intros H. exists (firstn (length s - length suffix) s).
    rewrite <- H at 2. symmetry. apply firstn_skipn.
  - intros (p & ->). rewrite length_app.
    replace (length p + length suffix - length suffix)%nat with (length p) by lia.
    rewrite skipn_app, skipn_all, Nat.sub_diag. reflexivity.
Qed.

(** X15: every branch that the two enumerations return has a short name
    that is not empty and has no whitespace at either end, and its full
    ref is the short name behind [refs/remotes/] or [refs/heads/]; no
    remote branch returned ends in [/HEAD]. *)
Theorem list_branches_names (stdout : str) :
  Forall (fun p => snd p <> [] /\ strip (snd p) = snd p
                   /\ (~ exists q, snd p = q ++ str_of "/HEAD")
                   /\ fst p = str_of "refs/remotes/" ++ snd p)
    (list_remote_branches stdout)
  /\ Forall (fun p => snd p <> [] /\ strip (snd p) = snd p
                      /\ fst p = str_of "refs/heads/" ++ snd p)
       (list_local_branches stdout).
Proof.
  split; apply List.Forall_forall; intros [full short] H; cbn [fst snd].
  - unfold list_remote_branches in H. apply in_map_iff in H.
    destruct H as (s & E & Hs). inversion E; subst.
    apply filter_In in Hs. destruct Hs as [Hs Hh].
    apply stripped_lines_In in Hs. apply negb_true_iff in Hh.
    destruct Hs as [Hne Hst]. repeat split; try assumption.
    intros Hq. apply endswith_spec in Hq. congruence.
  - unfold list_local_branches in H. apply in_map_iff in H.
    destruct H as (s & E & Hs). inversion E; subst.
    apply stripped_lines_In in Hs. tauto.
Qed.

Lemma is_linebreak_isspace (c : N) : is_linebreak c = true -> isspace c = true.
Proof.
  unfold is_linebreak, isspace. intros H.
  repeat rewrite ?orb_true_iff, ?andb_true_iff in H.
  repeat rewrite ?N.leb_le, ?N.eqb_eq in H.
  repeat rewrite ?orb_true_iff, ?andb_true_iff.
  repeat rewrite ?N.leb_le, ?N.eqb_eq. lia.
Qed.

Lemma splitlines_line (n rest : str) :
  Forall (fun c => isspace c = false) n ->
  splitlines (n ++ 10%N :: rest) = n :: splitlines rest.
Proof.
  induction 1 as [|c n Hc _ IH].
  - simpl. destruct rest; reflexivity.
  - change ((c :: n) ++ 10%N :: rest) with (c :: (n ++ 10%N :: rest)).
    cbn [splitlines]. rewrite IH.
    destruct (is_linebreak c) eqn:E; [|reflexivity].
    apply is_linebreak_isspace in E. congruence.
Qed.

Lemma clean_strip (n : str) : Forall (fun c => isspace c = false) n -> strip n = n.
Proof.
  intros H. unfold strip.
  assert (Hr : rstrip n = n).
  { induction H as [|c n Hc _ IH]; simpl; [reflexivity|].
    rewrite IH, Hc. destruct n; reflexivity. }
  rewrite Hr. destruct H as [|c n Hc _]; simpl; [reflexivity|].
  rewrite Hc. reflexivity.
Qed.

Lemma stripped_lines_names (names : list str) :
  Forall clean_name names ->
  stripped_lines (concat (map (fun n => n ++ [10%N]) names)) = names.
Proof.
  unfold stripped_lines. induction 1 as [|n ns [Hne Hn] _ IH]; [reflexivity|].
  cbn [map concat]. rewrite <- app_assoc. cbn [app].
  rewrite splitlines_line by assumption. cbn [List.filter].
  rewrite (clean_strip n Hn). destruct n as [|c n']; [congruence|].
  cbn [truthy map]. rewrite (clean_strip (c :: n') Hn). f_equal. exact IH.
Qed.

(** X16: the output of git, one clean name on every line, is read back
    as those names, in their order: all of them as local branches, and as
    remote branches those that do not end in [/HEAD]. *)
Theorem list_branches_of_names (names : list str) :
  Forall clean_name names ->
  list_local_branches (concat (map (fun n => n ++ [10%N]) names))
  = map (fun n => (str_of "refs/heads/" ++ n, n)) names
  /\ list_remote_branches (concat (map (fun n => n ++ [10%N]) names))
     = map (fun n => (str_of "refs/remotes/" ++ n, n))
         (List.filter (fun n => negb (endswith n (str_of "/HEAD"))) names).
Proof.
  intros H. unfold list_local_branches, list_remote_branches.
  rewrite stripped_lines_names by assumption. split; reflexivity.
Qed.

Lemma list_branches_of_names_witness :
  Forall clean_name [str_of "origin/HEAD"; str_of "origin/main"]
  /\ list_remote_branches
       (concat (map (fun n => n ++ [10%N]) [str_of "origin/HEAD"; str_of "origin/main"]))
     = [(str_of "refs/remotes/origin/main", str_of "origin/main")].
Proof.
  assert (H : Forall clean_name [str_of "origin/HEAD"; str_of "origin/main"]).
  { repeat constructor; vm_compute; discriminate. }
  split; [exact H|].
  apply (list_branches_of_names [str_of "origin/HEAD"; str_of "origin/main"] H).
Defined.

(** ** The query of a tip commit *)

Lemma split_on_length (sep : N) (s : str) :
  length (split_on sep s) = S (count_occ N.eq_dec s sep).
Proof.
  induction s as [|c t IH]; [reflexivity|].
  cbn [split_on count_occ].
  destruct (N.eqb_spec c sep) as [->|Hne].
  - destruct (N.eq_dec sep sep); [|congruence]. simpl. rewrite IH. reflexivity.
  - destruct (N.eq_dec c sep); [congruence|].
    destruct (split_on sep t); simpl in *; [discriminate | exact IH].
Qed.

(** X17: an output of git that does not hold exactly three separators,
    the empty output among them, makes the query raise [RuntimeError],
    which the loops of [main] catch. *)
Theorem get_latest_commit_field_count (run_git_log : str -> result str)
    (fromisoformat : str -> option datetime) (ref out : str) :
  run_git_log ref = inr out ->
  count_occ N.eq_dec (rstrip_newlines out) 0%N <> 3%nat ->
  exists msg,
    get_latest_commit run_git_log fromisoformat ref = inl (RuntimeError msg).
Proof.
  intros Hrun Hcount. unfold get_latest_commit. rewrite Hrun.
  cbn [mbind result_bind]. rewrite split_on_length.
  destruct (Nat.eqb_spec (S (count_occ N.eq_dec (rstrip_newlines out) 0%N)) 4) as [E|_].
  - exfalso. apply Hcount. lia.
  - simpl. eexists. reflexivity.
Qed.

Lemma get_latest_commit_field_count_witness :
  (fun _ : str => inr [] : result str) (str_of "refs/heads/empty") = inr []
  /\ count_occ N.eq_dec (rstrip_newlines []) 0%N <> 3%nat
  /\ exists msg,
       get_latest_commit (fun _ => inr []) demo_fromisoformat (str_of "refs/heads/empty")
       = inl (RuntimeError msg).
Proof.
  assert (H : count_occ N.eq_dec (rstrip_newlines []) 0%N <> 3%nat)
    by (vm_compute; discriminate).
  split; [reflexivity|]. split; [exact H|].
  apply (get_latest_commit_field_count (fun _ => inr []) demo_fromisoformat
           (str_of "refs/heads/empty") [] eq_refl H).
Defined.

Lemma split_on_field (sep : N) (a b : str) :
  ~ In sep a -> split_on sep (a ++ sep :: b) = a :: split_on sep b.
Proof.
  induction a as [|c a IH]; intros H.
  - simpl. rewrite N.eqb_refl. reflexivity.
  - change ((c :: a) ++ sep :: b) with (c :: (a ++ sep :: b)). cbn [split_on].
    destruct (N.eqb_spec c sep) as [->|_]; [exfalso; apply H; left; reflexivity|].
    rewrite IH by (intros Hin; apply H; right; exact Hin). reflexivity.
Qed.

Lemma split_on_last (sep : N) (a : str) : ~ In sep a -> split_on sep a = [a].
Proof.
  induction a as [|c a IH]; intros H; [reflexivity|]. cbn [split_on].
  destruct (N.eqb_spec c sep) as [->|_]; [exfalso; apply H; left; reflexivity|].
  rewrite IH by (intros Hin; apply H; right; exact Hin). reflexivity.
Qed.

Lemma rstrip_newlines_app (a b : str) :
  rstrip_newlines b <> [] -> rstrip_newlines (a ++ b) = a ++ rstrip_newlines b.
Proof.
  intros Hb. induction a as [|c a IH]; simpl; [reflexivity|].
  rewrite IH. destruct (a ++ rstrip_newlines b) eqn:E; [|reflexivity].
  apply app_eq_nil in E. tauto.
Qed.

Lemma rstrip_newlines_snoc (a : str) :
  rstrip_newlines (a ++ [10%N]) = rstrip_newlines a.
Proof.
  induction a as [|c a IH]; simpl; [reflexivity|]. rewrite IH. reflexivity.
Qed.

(** X18: the four fields that git prints, separated by the null
    character and followed by a line feed, are read back as they are:
    the hash, the committer, the parsed date and the subject. *)
Theorem get_latest_commit_fields (run_git_log : str -> result str)
    (fromisoformat : str -> option datetime)
    (ref h c d s : str) (date_obj : datetime) :
  ~ In 0%N h -> ~ In 0%N c -> ~ In 0%N d -> ~ In 0%N s ->
  rstrip_newlines s = s ->
  run_git_log ref = inr (h ++ 0%N :: c ++ 0%N :: d ++ 0%N :: s ++ [10%N]) ->
  fromisoformat d = Some date_obj ->
  get_latest_commit run_git_log fromisoformat ref = inr (h, c, date_obj, s).
Proof.
  intros Hh Hc Hd Hs Hnl Hrun Hdate. unfold get_latest_commit. rewrite Hrun.
  cbn [mbind result_bind].
  assert (E : rstrip_newlines (h ++ 0%N :: c ++ 0%N :: d ++ 0%N :: s ++ [10%N])
              = h ++ 0%N :: c ++ 0%N :: d ++ 0%N :: s).
  { replace (h ++ 0%N :: c ++ 0%N :: d ++ 0%N :: s ++ [10%N])
      with ((h ++ 0%N :: c ++ 0%N :: d ++ 0%N :: s) ++ [10%N])
      by (rewrite <- !app_assoc; simpl; rewrite <- !app_assoc; simpl;
          rewrite <- !app_assoc; reflexivity).
    rewrite rstrip_newlines_snoc.
    assert (E0 : rstrip_newlines (0%N :: s) = 0%N :: s).
    { simpl. rewrite Hnl. destruct s; reflexivity. }
    replace (h ++ 0%N :: c ++ 0%N :: d ++ 0%N :: s)
      with ((h ++ 0%N :: c ++ 0%N :: d) ++ 0%N :: s)
      by (rewrite <- !app_assoc; simpl; rewrite <- !app_assoc; reflexivity).
    rewrite rstrip_newlines_app by (rewrite E0; discriminate).
    rewrite E0. reflexivity. }
  rewrite E.
  rewrite (split_on_field 0 h) by assumption.
  rewrite (split_on_field 0 c) by assumption.
  rewrite (split_on_field 0 d) by assumption.
  rewrite (split_on_last 0 s) by assumption.
  cbn [length Nat.eqb negb field nth]. rewrite Hdate. reflexivity.
Qed.

Lemma get_latest_commit_fields_witness :
  ~ In 0%N (str_of "0123abcd") /\ ~ In 0%N (str_of "Ann")
  /\ ~ In 0%N (str_of "2024-01-01T13:05:09+00:00") /\ ~ In 0%N (str_of "init")
  /\ rstrip_newlines (str_of "init") = str_of "init"
  /\ get_latest_commit demo_log demo_fromisoformat (str_of "refs/remotes/origin/main")
     = inr (str_of "0123abcd", str_of "Ann", demo_date, str_of "init").
Proof.
  assert (Hh : ~ In 0%N (str_of "0123abcd")) by (vm_compute; intuition discriminate).
  assert (Hc : ~ In 0%N (str_of "Ann")) by (vm_compute; intuition discriminate).
  assert (Hd : ~ In 0%N (str_of "2024-01-01T13:05:09+00:00"))
    by (vm_compute; intuition discriminate).
  assert (Hs : ~ In 0%N (str_of "init")) by (vm_compute; intuition discriminate).
  assert (Hnl : rstrip_newlines (str_of "init") = str_of "init") by reflexivity.
  repeat (split; [assumption|]).
  apply (get_latest_commit_fields demo_log demo_fromisoformat
           (str_of "refs/remotes/origin/main") (str_of "0123abcd") (str_of "Ann")
           (str_of "2024-01-01T13:05:09+00:00") (str_of "init") demo_date
           Hh Hc Hd Hs Hnl); reflexivity.
Defined.

(** ** The lists and the report of [main] *)

Section MainFacts.
Variable run_git_log : str -> result str.
Variable fromisoformat : str -> option datetime.

Local Abbreviation build := (build_branch_info run_git_log fromisoformat).
Local Abbreviation collect := (collect_infos run_git_log fromisoformat).
Local Abbreviation successful := (successful_infos run_git_log fromisoformat).

Lemma collect_infos_inr (k : str) (refs : list (str * str))
    (infos out : list BranchInfo) :
  collect k refs infos = inr out -> out = infos ++ successful k refs.
Proof.
  revert infos. induction refs as [|[full short] rest IH]; intros infos H; simpl in *.
  - inversion H. rewrite app_nil_r. reflexivity.
  - destruct (build k full short) as [[msg|]|b].
    + apply IH. exact H.
    + discriminate.
    + apply IH in H. rewrite <- app_assoc in H. exact H.
Qed.

Lemma successful_infos_In (k : str) (refs : list (str * str)) (b : BranchInfo) :
  In b (successful k refs)
  <-> exists full short, In (full, short) refs /\ build k full short = inr b.
Proof.
  induction refs as [|[full short] rest IH]; simpl.
  - split; [intros [] | intros (f & s & [] & _)].
  - destruct (build k full short) as [e|b'] eqn:E.
    + rewrite IH. split.
      * intros (f & s & Hin & Hb). exists f, s. auto.
      * intros (f & s & [Hin|Hin] & Hb); [inversion Hin; subst; congruence|].
        exists f, s. auto.
    + simpl. rewrite IH. split.
      * intros [<-|(f & s & Hin & Hb)]; [exists full, short; auto|].
        exists f, s. auto.
      * intros (f & s & [Hin|Hin] & Hb).
        -- inversion Hin; subst. left. congruence.
        -- right. exists f, s. auto.
Qed.

Lemma build_branch_info_names (k ref display : str) (b : BranchInfo) :
  build k ref display = inr b ->
  kind b = k /\ refname b = ref /\ display_name b = display.
Proof.
  unfold build_branch_info.
  destruct (get_latest_commit run_git_log fromisoformat ref) as [e|[[[h c] d] s]];
    simpl; [discriminate|].
  intros H. inversion H. auto.
Qed.

Lemma successful_infos_display (k : str) (refs : list (str * str)) (d : str) :
  In d (map display_name (successful k refs)) -> In d (map snd refs).
Proof.
  intros H. apply in_map_iff in H. destruct H as (b & <- & Hb).
  apply successful_infos_In in Hb. destruct Hb as (f & s & Hin & Hb).
  apply build_branch_info_names in Hb. destruct Hb as (_ & _ & ->).
  apply in_map_iff. exists (f, s). auto.
Qed.

Lemma successful_infos_NoDup (k : str) (refs : list (str * str)) :
  List.NoDup (map snd refs) -> List.NoDup (map display_name (successful k refs)).
Proof.
  induction refs as [|[full short] rest IH]; simpl; intros H; [constructor|].
  inversion H as [|x l Hnin Hnd]; subst.
  destruct (build k full short) as [e|b] eqn:E; [apply IH; assumption|].
  simpl. constructor; [|apply IH; assumption].
  apply build_branch_info_names in E. destruct E as (_ & _ & ->).
  intros Hin. apply Hnin. eapply successful_infos_display. exact Hin.
Qed.

Lemma filter_snd_NoDup (f : str * str -> bool) (refs : list (str * str)) :
  List.NoDup (map snd refs) -> List.NoDup (map snd (List.filter f refs)).
Proof.
  induction refs as [|r rest IH]; simpl; intros H; [constructor|].
  inversion H as [|x l Hnin Hnd]; subst.
  destruct (f r); [|apply IH; assumption].
  simpl. constructor; [|apply IH; assumption].
  intros Hin. apply Hnin. apply in_map_iff in Hin. destruct Hin as (r' & E & Hr').
  apply filter_In in Hr'. apply in_map_iff. exists r'. tauto.
Qed.

(** The refs that [main] keeps as local-only. *)
Lemma main_infos_inr (remote_refs local_refs : list (str * str))
    (rs ls : list BranchInfo) :
  main_infos run_git_log fromisoformat remote_refs local_refs = inr (rs, ls) ->
  rs = sort_infos (successful (str_of "remote") remote_refs)
  /\ ls = sort_infos
            (successful (str_of "local")
               (List.filter
                  (fun r => negb (bool_decide
                     (Some (snd r)
                      ∈ map after_first_slash (map snd remote_refs))))
                  local_refs)).
Proof.
  unfold main_infos. intros H.
  destruct (collect (str_of "remote") remote_refs []) as [e|ri] eqn:E1;
    [discriminate|].
  cbn [mbind result_bind] in H.
  match type of H with
  | context [collect _ ?l []] =>
      destruct (collect (str_of "local") l []) as [e|li] eqn:E2; [discriminate|]
  end.
  cbn [mbind result_bind] in H. inversion H; subst.
  apply collect_infos_inr in E1, E2. simpl in E1, E2. subst.
  split; [reflexivity|]. f_equal. f_equal.
  apply filter_ext_in. intros [full short] Hin. cbn [snd].
  destruct (bool_decide (Some short ∈ _)) eqn:Eb; simpl.
  - apply bool_decide_eq_false. apply bool_decide_eq_true in Eb.
    rewrite list_elem_of_In in Eb.
    rewrite elem_of_list_to_set, list_elem_of_In, local_only_In. tauto.
  - apply bool_decide_eq_true. apply bool_decide_eq_false in Eb.
    rewrite list_elem_of_In in Eb.
    rewrite elem_of_list_to_set, list_elem_of_In, local_only_In.
    split; [|exact Eb]. apply in_map_iff. exists (full, short). auto.
Qed.
End MainFacts.

(** X19: when [main] gets as far as its report, the remote list holds
    exactly the records of the remote refs whose query succeeded, and the
    local list exactly those of the local refs whose short name is no leaf
    of a remote name and whose query succeeded. *)
Theorem main_infos_reports_successes (run_git_log : str -> result str)
    (fromisoformat : str -> option datetime)
    (remote_refs local_refs : list (str * str)) (rs ls : list BranchInfo) :
  main_infos run_git_log fromisoformat remote_refs local_refs = inr (rs, ls) ->
  (forall b,
      In b rs
      <-> exists full short,
            In (full, short) remote_refs
            /\ build_branch_info run_git_log fromisoformat (str_of "remote")
                 full short = inr b)
  /\ (forall b,
        In b ls
        <-> exists full short,
              In (full, short) local_refs
              /\ ~ In (Some short) (map after_first_slash (map snd remote_refs))
              /\ build_branch_info run_git_log fromisoformat (str_of "local")
                   full short = inr b).
Proof.
  intros H. apply main_infos_inr in H. destruct H as [-> ->].
  assert (Hsort : forall l b, In b (sort_infos l) <-> In b l).
  { intros l b. unfold sort_infos. split; apply Permutation_in.
    - apply Permutation_sym, sort_reverse_perm.
    - apply sort_reverse_perm. }
  split; intros b; rewrite Hsort, successful_infos_In.
  - reflexivity.
  - split; intros (full & short & Hin & Hb).
    + apply filter_In in Hin. destruct Hin as [Hin Hf]. cbn [snd] in Hf.
      apply negb_true_iff, bool_decide_eq_false in Hf.
      rewrite list_elem_of_In in Hf. exists full, short. auto.
    + destruct Hb as [Hn Hb]. exists full, short. split; [|exact Hb].
      apply filter_In. split; [exact Hin|]. cbn [snd].
      apply negb_true_iff, bool_decide_eq_false.
      rewrite list_elem_of_In. exact Hn.
Qed.

Lemma main_infos_reports_successes_witness :
  main_infos demo_log demo_fromisoformat (firstn 2 demo_remote_refs) []
  = inr ([MkBranchInfo (str_of "remote") (str_of "origin/main")
            (str_of "refs/remotes/origin/main") (str_of "0123abcd")
            (str_of "Ann") demo_date (str_of "init")], [])
  /\ forall b,
       In b (@nil BranchInfo)
       <-> exists full short,
             In (full, short) (@nil (str * str))
             /\ ~ In (Some short)
                  (map after_first_slash (map snd (firstn 2 demo_remote_refs)))
             /\ build_branch_info demo_log demo_fromisoformat (str_of "local")
                  full short = inr b.
Proof.
  assert (H : main_infos demo_log demo_fromisoformat (firstn 2 demo_remote_refs) []
              = inr ([MkBranchInfo (str_of "remote") (str_of "origin/main")
                        (str_of "refs/remotes/origin/main") (str_of "0123abcd")
                        (str_of "Ann") demo_date (str_of "init")], []))
    by (vm_compute; reflexivity).
  split; [exact H|].
  apply (main_infos_reports_successes demo_log demo_fromisoformat
           (firstn 2 demo_remote_refs) [] _ _ H).
Defined.

(** X20: when the short names of each enumeration are distinct, no branch
    is reported twice in its list. *)
Theorem main_infos_no_duplicates (run_git_log : str -> result str)
    (fromisoformat : str -> option datetime)
    (remote_refs local_refs : list (str * str)) (rs ls : list BranchInfo) :
  main_infos run_git_log fromisoformat remote_refs local_refs = inr (rs, ls) ->
  List.NoDup (map snd remote_refs) -> List.NoDup (map snd local_refs) ->
  List.NoDup (map display_name rs) /\ List.NoDup (map display_name ls).
Proof.
  intros H Hr Hl. apply main_infos_inr in H. destruct H as [-> ->].
  unfold sort_infos. split.
  - eapply Permutation_NoDup.
    + apply Permutation_map. apply sort_reverse_perm.
    + apply successful_infos_NoDup. exact Hr.
  - eapply Permutation_NoDup.
    + apply Permutation_map. apply sort_reverse_perm.
    + apply successful_infos_NoDup. apply filter_snd_NoDup. exact Hl.
Qed.

Lemma main_infos_no_duplicates_witness :
  main_infos demo_log demo_fromisoformat (firstn 2 demo_remote_refs) []
  = inr ([MkBranchInfo (str_of "remote") (str_of "origin/main")
            (str_of "refs/remotes/origin/main") (str_of "0123abcd")
            (str_of "Ann") demo_date (str_of "init")], [])
  /\ List.NoDup (map snd (firstn 2 demo_remote_refs))
  /\ List.NoDup (map snd (@nil (str * str)))
  /\ List.NoDup (map display_name
       [MkBranchInfo (str_of "remote") (str_of "origin/main")
          (str_of "refs/remotes/origin/main") (str_of "0123abcd")
          (str_of "Ann") demo_date (str_of "init")]).
Proof.
  assert (H : main_infos demo_log demo_fromisoformat (firstn 2 demo_remote_refs) []
              = inr ([MkBranchInfo (str_of "remote") (str_of "origin/main")
                        (str_of "refs/remotes/origin/main") (str_of "0123abcd")
                        (str_of "Ann") demo_date (str_of "init")], []))
    by (vm_compute; reflexivity).
  assert (Hr : List.NoDup (map snd (firstn 2 demo_remote_refs))).
  { vm_compute. repeat constructor; simpl; intuition discriminate. }
  assert (Hl : List.NoDup (map snd (@nil (str * str)))) by constructor.
  split; [exact H|]. split; [exact Hr|]. split; [exact Hl|].
  apply (main_infos_no_duplicates demo_log demo_fromisoformat
           (firstn 2 demo_remote_refs) [] _ _ H Hr Hl).
Defined.

(** X21: the rule under the title is made of dashes, as many as the title
    has characters but no more than the width of the terminal, and none
    for a width below one; the title is longer than ten characters, so
    that the lower bound of ten plays no part. *)
Theorem header_rule_length (colored : str -> str -> list str -> str)
    (width : Z) (repo_name : str) :
  exists title rule,
    title = str_of "Latest commits per branch in " ++ repo_name
    /\ header_lines colored width repo_name
       = [colored title (str_of "cyan") [str_of "bold"];
          colored rule (str_of "cyan") []; []]
    /\ Forall (fun c => c = 45%N) rule
    /\ Z.of_nat (length rule)
       = Z.max 0 (Z.min width (Z.of_nat (length title))).
Proof.
  eexists. eexists. split; [reflexivity|]. split; [reflexivity|]. split.
  - unfold dashes. apply Forall_forall. intros c Hc.
    apply list_elem_of_In in Hc. apply repeat_spec in Hc. exact Hc.
  - unfold dashes. rewrite repeat_length, length_app.
    change (length (str_of "Latest commits per branch in ")) with 29%nat. lia.
Qed.

Section ReportFacts.
Variable colored : str -> str -> list str -> str.
Variable isoformat : datetime -> str.
Variable timestamp_format : str.
Variable width : Z.
Variable run_git_log : str -> result str.
Variable fromisoformat : str -> option datetime.

Lemma successful_infos_all_fail (k : str) (refs : list (str * str)) :
  Forall (fun r => exists e, get_latest_commit run_git_log fromisoformat (fst r) = inl e)
    refs ->
  successful_infos run_git_log fromisoformat k refs = [].
Proof.
  induction 1 as [|[full short] rest [e He] _ IH]; simpl; [reflexivity|].
  unfold build_branch_info. cbn [fst] in He. rewrite He. exact IH.
Qed.
End ReportFacts.

(** X22: when there is no branch, or the query of every branch raises
    [RuntimeError], the report is still printed: the header, and the two
    sections with the placeholder [(none)] and an empty line each. *)
Theorem main_report_without_records
    (colored : str -> str -> list str -> str) (isoformat : datetime -> str)
    (timestamp_format : str) (width : Z)
    (run_git_log : str -> result str) (fromisoformat : str -> option datetime)
    (repo_name remote_stdout local_stdout : str) :
  Forall (fun r => exists msg, get_latest_commit run_git_log fromisoformat (fst r)
                               = inl (RuntimeError msg))
    (list_remote_branches remote_stdout ++ list_local_branches local_stdout) ->
  main_report colored isoformat timestamp_format width run_git_log fromisoformat
    repo_name remote_stdout local_stdout
  = inr (header_lines colored width repo_name
         ++ [colored (str_of "Remote branches") (str_of "cyan") [str_of "bold"];
             colored (str_of "  (none)") (str_of "yellow") []; [];
             colored (str_of "Local branches (no corresponding remote)")
               (str_of "cyan") [str_of "bold"];
             colored (str_of "  (none)") (str_of "yellow") []; []]).
Proof.
  intros H. apply Forall_app in H. destruct H as [Hr Hl].
  assert (Hcaught : forall refs : list (str * str),
             Forall (fun r => exists msg,
                       get_latest_commit run_git_log fromisoformat (fst r)
                       = inl (RuntimeError msg)) refs ->
             Forall (caught run_git_log fromisoformat) refs).
  { intros refs. apply List.Forall_impl. intros r [msg Hm] e He.
    exists msg. congruence. }
  assert (Hfail : forall refs : list (str * str),
             Forall (fun r => exists msg,
                       get_latest_commit run_git_log fromisoformat (fst r)
                       = inl (RuntimeError msg)) refs ->
             Forall (fun r => exists e,
                       get_latest_commit run_git_log fromisoformat (fst r) = inl e) refs).
  { intros refs. apply List.Forall_impl. intros r [msg Hm]. eauto. }
  unfold main_report, main_infos.
  rewrite (collect_infos_caught run_git_log fromisoformat (str_of "remote")
             (list_remote_branches remote_stdout) [])
    by (apply Hcaught; exact Hr).
  rewrite (successful_infos_all_fail run_git_log fromisoformat (str_of "remote")
             _ (Hfail _ Hr)).
  cbn [mbind result_bind app].
  match goal with
  | |- context [collect_infos _ _ _ ?l []] =>
      assert (Hl' : Forall (fun r => exists msg,
                       get_latest_commit run_git_log fromisoformat (fst r)
                       = inl (RuntimeError msg)) l)
  end.
  { rewrite List.Forall_forall in *. intros r Hin. apply Hl.
    apply filter_In in Hin. tauto. }
  rewrite (collect_infos_caught run_git_log fromisoformat (str_of "local") _ [])
    by (apply Hcaught; exact Hl').
  rewrite (successful_infos_all_fail run_git_log fromisoformat (str_of "local")
             _ (Hfail _ Hl')).
  reflexivity.
Qed.

Lemma main_report_without_records_witness :
  Forall (fun r => exists msg, get_latest_commit demo_log demo_fromisoformat (fst r)
                               = inl (RuntimeError msg))
    (list_remote_branches (str_of "origin/gone" ++ [10%N]) ++ list_local_branches [])
  /\ main_report (fun t _ _ => t) (fun _ => []) (str_of "readable") 80
       demo_log demo_fromisoformat (str_of "repo") (str_of "origin/gone" ++ [10%N]) []
     = inr [str_of "Latest commits per branch in repo";
            str_of "---------------------------------"; [];
            str_of "Remote branches"; str_of "  (none)"; [];
            str_of "Local branches (no corresponding remote)";
            str_of "  (none)"; []].
Proof.
  assert (H : Forall (fun r => exists msg,
                        get_latest_commit demo_log demo_fromisoformat (fst r)
                        = inl (RuntimeError msg))
                (list_remote_branches (str_of "origin/gone" ++ [10%N])
                 ++ list_local_branches [])).
  { vm_compute. repeat constructor. eexists. reflexivity. }
  split; [exact H|].
  apply (main_report_without_records (fun t _ _ => t) (fun _ => [])
           (str_of "readable") 80 demo_log demo_fromisoformat (str_of "repo")
           (str_of "origin/gone" ++ [10%N]) [] H).
Defined.

(** ** The order of the lists *)

(** X23: a list that is already in descending order of the instants is
    left as it is; sorting a sorted list again changes nothing. *)
Theorem sort_infos_sorted_unchanged (infos : list BranchInfo) :
  StronglySorted
    (fun a b => utc_microseconds (commit_date b) <= utc_microseconds (commit_date a))
    infos ->
  sort_infos infos = infos /\ sort_infos (sort_infos infos) = sort_infos infos.
Proof.
  intros Hs.
  assert (E : sort_infos infos = infos).
  { symmetry. unfold sort_infos.
    apply (sort_reverse_unique commit_date datetime_lt utc_microseconds);
      [reflexivity | exact Hs | reflexivity]. }
  split; [exact E|]. rewrite E. exact E.
Qed.

Lemma sort_infos_sorted_unchanged_witness :
  StronglySorted
    (fun a b => utc_microseconds (commit_date b) <= utc_microseconds (commit_date a))
    [MkBranchInfo (str_of "remote") (str_of "origin/main")
       (str_of "refs/remotes/origin/main") (str_of "0123abcd")
       (str_of "Ann") demo_date (str_of "init");
     MkBranchInfo (str_of "remote") (str_of "origin/old")
       (str_of "refs/remotes/origin/old") (str_of "4567cdef")
       (str_of "Bob") (Datetime 2023 12 31 23 59 59 0 (Some (Timedelta 0 3600 0)))
       (str_of "older")]
  /\ sort_infos
       [MkBranchInfo (str_of "remote") (str_of "origin/main")
          (str_of "refs/remotes/origin/main") (str_of "0123abcd")
          (str_of "Ann") demo_date (str_of "init");
        MkBranchInfo (str_of "remote") (str_of "origin/old")
          (str_of "refs/remotes/origin/old") (str_of "4567cdef")
          (str_of "Bob") (Datetime 2023 12 31 23 59 59 0 (Some (Timedelta 0 3600 0)))
          (str_of "older")]
     = [MkBranchInfo (str_of "remote") (str_of "origin/main")
          (str_of "refs/remotes/origin/main") (str_of "0123abcd")
          (str_of "Ann") demo_date (str_of "init");
        MkBranchInfo (str_of "remote") (str_of "origin/old")
          (str_of "refs/remotes/origin/old") (str_of "4567cdef")
          (str_of "Bob") (Datetime 2023 12 31 23 59 59 0 (Some (Timedelta 0 3600 0)))
          (str_of "older")].
Proof.
  assert (H : StronglySorted
    (fun a b => utc_microseconds (commit_date b) <= utc_microseconds (commit_date a))
    [MkBranchInfo (str_of "remote") (str_of "origin/main")
       (str_of "refs/remotes/origin/main") (str_of "0123abcd")
       (str_of "Ann") demo_date (str_of "init");
     MkBranchInfo (str_of "remote") (str_of "origin/old")
       (str_of "refs/remotes/origin/old") (str_of "4567cdef")
       (str_of "Bob") (Datetime 2023 12 31 23 59 59 0 (Some (Timedelta 0 3600 0)))
       (str_of "older")]).
  { constructor; [constructor; [constructor | constructor]|].
    constructor; [vm_compute; discriminate | constructor]. }
  split; [exact H|].
  apply (sort_infos_sorted_unchanged _ H).
Defined.
